(** * Directory summaries of test results: build, merge, reconcile

    A shallow embedding of [client/bin/result_tools/utils.py] and of
    [utils_lib.py].  A directory summary is a nested Python
    dictionary; an entry is a dictionary with the keys ['/S'], ['/T'], ['/C']
    and ['/D'], and the value under ['/D'] maps file names to entries again.
    Dictionaries are finite maps from strings ([gmap string]), sizes are
    Python integers ([Z]).  Code that mutates its argument in place returns
    the updated value here. *)

From Stdlib Require Import Ascii String.
From stdpp Require Import gmap strings list sorting.

Open Scope Z_scope.

(** ** Outcomes of a call *)

(** The exceptions of the modelled code: those it raises itself, and the
    [OSError] of [os.listdir], which it lets through. *)
Inductive exn := IOError | ValueError | KeyError | OSError.

(** A call returns a value or raises.  [OutOfFuel] is not an outcome of the
    program: it marks a run of the fuelled directory walk below that was given
    too little fuel. *)
Inductive outcome (A : Type) :=
  | Ok (a : A)
  | Raise (e : exn)
  | OutOfFuel.
Arguments Ok {A} a.
Arguments Raise {A} e.
Arguments OutOfFuel {A}.

#[global] Instance outcome_ret : MRet outcome := @Ok.

#[global] Instance outcome_bind : MBind outcome := λ A B k m,
  match m with
  | Ok a => k a
  | Raise e => Raise e
  | OutOfFuel => OutOfFuel
  end.

(** ** Tree model ([utils_lib.py]) *)

(** One entry of a summary.  ['/S'] is present in every entry; ['/T'] and
    ['/C'] are optional keys; ['/D'] is present exactly for directories. *)
#[warnings="-register-all"]
Inductive entry := Entry {
  original_size_bytes : Z;                (* ORIGINAL_SIZE_BYTES = '/S' *)
  trimmed_size_bytes : option Z;          (* TRIMMED_SIZE_BYTES = '/T' *)
  collected_size_bytes : option Z;        (* COLLECTED_SIZE_BYTES = '/C' *)
  dirs : option (gmap string entry)       (* DIRS = '/D' *)
}.

Abbreviation summary := (gmap string entry).

Definition ROOT_DIR : string := "".

(** [FILES_TO_IGNORE] of [utils.py]. *)
Definition FILES_TO_IGNORE : gset string := {[ "control.autoserv.state" ]}.

(** [e.get('/T', e['/S'])] *)
Definition get_trimmed (e : entry) : Z :=
  default (original_size_bytes e) (trimmed_size_bytes e).

(** [e.get('/C', e.get('/T', e['/S']))] *)
Definition get_collected (e : entry) : Z :=
  default (get_trimmed e) (collected_size_bytes e).

(** [sum([f(d[s]) for s in d])] *)
Definition sum_sizes (f : entry → Z) (d : summary) : Z :=
  map_fold (λ _ e acc, f e + acc) 0 d.

(** [_update_sizes(entry)]: recompute the three sizes of a directory from its
    children; a file is left alone. *)
Definition _update_sizes (e : entry) : entry :=
  match dirs e with
  | None => e
  | Some d =>
      Entry (sum_sizes original_size_bytes d)
            (Some (sum_sizes get_trimmed d))
            (Some (sum_sizes get_collected d))
            (Some d)
  end.

(** ** Merge engine *)

(** The file branch of the loop of [_merge]: both sides are files.  [None]
    stands for [continue], which also skips the trailing [_update_sizes]. *)
Definition merge_file (is_final : bool) (n o : entry) : option entry :=
  let new_size := original_size_bytes n in
  let old_size := original_size_bytes o in
  let new_trimmed_size := get_trimmed n in
  let old_trimmed_size := get_trimmed o in
  if bool_decide (new_size ≠ old_size) then
    if is_final && bool_decide (new_trimmed_size = old_trimmed_size) then None
    else
      let new_collected_size := get_collected n in
      let old_collected_size := get_collected o in
      Some (_update_sizes
              (Entry new_size
                     (Some (get_trimmed n))
                     (Some (new_collected_size + old_collected_size))
                     (dirs o)))
  else Some (_update_sizes o).

(** A file of the old summary forced to be an empty directory. *)
Definition force_dir (o : entry) : entry :=
  match dirs o with
  | Some _ => o
  | None => Entry 0 (Some 0) (Some 0) (Some ∅)
  end.

Definition set_dirs (e : entry) (d : summary) : entry :=
  Entry (original_size_bytes e) (trimmed_size_bytes e)
        (collected_size_bytes e) (Some d).

(** Store the outcome of one iteration: [Some e] is the value of
    [summary_old[name]] after the iteration, [None] an iteration that left
    [summary_old] as it was. *)
Definition store (name : string) (r : option entry) (summary_old : summary)
    : summary :=
  match r with
  | Some e => <[name := e]> summary_old
  | None => summary_old
  end.

(** One iteration of the loop of [_merge], for the entry [n] of
    [summary_new] and what [summary_old] holds under the same name. *)
Fixpoint merge_name (is_final : bool) (n : entry) (old : option entry)
    {struct n} : option entry :=
  match old with
  | None =>
      (* newly collected: summary_old[name] = copy.deepcopy(summary_new[name]) *)
      Some (_update_sizes n)
  | Some o =>
      match dirs n with
      | Some nd =>
          let o1 := force_dir o in
          let merged :=
            map_fold (λ name n' summary_old,
                        store name
                          (merge_name is_final n' (summary_old !! name))
                          summary_old)
                     (default ∅ (dirs o1)) nd in
          Some (_update_sizes (set_dirs o1 merged))
      | None =>
          match dirs o with
          | Some _ => None    (* a file cannot overwrite a directory *)
          | None => merge_file is_final n o
          end
      end
  end.

(** [_merge(summary_old, summary_new, is_final)]; the result is the mutated
    [summary_old]. *)
Definition _merge (summary_old summary_new : summary) (is_final : bool)
    : summary :=
  map_fold (λ name n summary_old,
              store name (merge_name is_final n (summary_old !! name))
                    summary_old)
           summary_old summary_new.

(** ** Deletion pass *)

(** Store the outcome of one iteration of [_delete_missing_entries]:
    [None] is [del summary_old[name]]. *)
Definition store_or_del (name : string) (r : option entry)
    (summary_old : summary) : summary :=
  match r with
  | Some e => <[name := e]> summary_old
  | None => delete name summary_old
  end.

(** An ordinary file that is missing from the new summary. *)
Definition trim_missing (o : entry) : entry :=
  let collected :=
    match collected_size_bytes o with
    | Some c => c
    | None => get_trimmed o
    end in
  Entry (original_size_bytes o) (Some 0) (Some collected) (dirs o).

(** One iteration of the loop of [_delete_missing_entries] for the entry [o]
    that [summary_old] holds under [name]; [new] is what [summary_new] holds
    under that name.  The loop runs over [summary_old.keys()], every
    iteration reads and writes [summary_old[name]] only, so [o] is the entry
    as it was when the loop started.  [summary_new[name]['/D']] on a file
    raises [KeyError]. *)
Fixpoint delete_name (name : string) (o : entry) (new : option entry)
    {struct o} : outcome (option entry) :=
  let recurse (od nd : summary) : outcome summary :=
    map_fold (λ name' o' acc,
                summary_old ← acc;
                r ← delete_name name' o' (nd !! name');
                Ok (store_or_del name' r summary_old))
             (Ok od) od in
  match new with
  | None =>
      match dirs o with
      | Some od =>
          d ← recurse od ∅;
          Ok (Some (_update_sizes (set_dirs o d)))
      | None =>
          if bool_decide (name ∈ FILES_TO_IGNORE) then Ok None
          else Ok (Some (trim_missing o))
      end
  | Some n =>
      match dirs o with
      | Some od =>
          match dirs n with
          | Some nd =>
              d ← recurse od nd;
              Ok (Some (_update_sizes (set_dirs o d)))
          | None => Raise KeyError
          end
      | None => Ok (Some o)
      end
  end.

(** [_delete_missing_entries(summary_old, summary_new)].  The call
    [_update_sizes(summary_old)] that ends the source function is applied to
    the mapping of names itself, which has no key ['/D'] (a file name holds no
    ['/']), and returns at once. *)
Definition _delete_missing_entries (summary_old summary_new : summary)
    : outcome summary :=
  map_fold (λ name o acc,
              summary_old ← acc;
              r ← delete_name name o (summary_new !! name);
              Ok (store_or_del name r summary_old))
           (Ok summary_old) summary_old.

(** ** Snapshot builder *)

(** What the walk asks of the [os] module.  The operating system is not
    part of the program: its calls are taken as functions of the path, in a
    file system that does not change while the walk runs.  The tests of
    [os.path] and [os.path.realpath] do not raise.  [os.listdir(p)] raises
    [OSError] when [p] is not a directory that can be read (a FIFO, a
    socket, a device, a dangling link, a directory without the permission,
    a path that does not exist): this is [os_listdir_OSError p], and
    [os_listdir p] is the list it returns otherwise.  [os.stat(p)] is called
    only after [os.path.isfile(p)], which calls [os.stat(p)] itself, has
    returned [True]; [os_stat_st_size p] is the size it reports then. *)
Record filesystem := {
  os_path_exists : string → bool;
  os_path_isdir : string → bool;
  os_path_isfile : string → bool;
  os_path_islink : string → bool;
  os_path_realpath : string → string;
  os_stat_st_size : string → Z;
  os_listdir_OSError : string → bool;
  os_listdir : string → list string
}.

Definition sep : ascii := "/"%char.

Fixpoint has_sep (p : string) : bool :=
  match p with
  | EmptyString => false
  | String c r => Ascii.eqb c sep || has_sep r
  end.

(** [os.path.basename(p)]: [p[p.rfind('/') + 1:]] *)
Fixpoint os_path_basename (p : string) : string :=
  match p with
  | EmptyString => EmptyString
  | String c r => if has_sep p then os_path_basename r else p
  end.

(** [p.endswith(os.sep)] *)
Fixpoint endswith_sep (p : string) : bool :=
  match p with
  | EmptyString => false
  | String c EmptyString => Ascii.eqb c sep
  | String _ r => endswith_sep r
  end.

(** [os.path.join(a, b)] *)
Definition os_path_join (a b : string) : string :=
  if String.prefix "/" b then b
  else if bool_decide (a = "") || endswith_sep a then a +:+ b
  else a +:+ "/" +:+ b.

(** [path + os.sep] unless the path ends with it already. *)
Definition with_sep (path : string) : string :=
  if endswith_sep path then path else path +:+ "/".

(** [merged_summary[ROOT_DIR]['/C']] after the summary files are merged,
    0 for an empty [merged_summary]. *)
Definition client_collected (merged_summary : summary) : outcome Z :=
  if bool_decide (merged_summary = ∅) then Ok 0
  else match merged_summary !! ROOT_DIR with
       | None => Raise KeyError
       | Some root =>
           match collected_size_bytes root with
           | None => Raise KeyError
           | Some c => Ok c
           end
       end.

(** The fold of [_merge] over the loaded summary files. *)
Definition merge_all (all_summaries : list summary) : summary :=
  foldl (λ merged_summary summary, _merge merged_summary summary false)
        (default ∅ (head all_summaries)) (tail all_summaries).

(** [dir_info['/D'][f] = child] and [dir_info['/S'] += child['/S']] *)
Definition add_child (dir_info : entry) (f : string) (child : entry) : entry :=
  Entry (original_size_bytes dir_info + original_size_bytes child)
        (trimmed_size_bytes dir_info)
        (collected_size_bytes dir_info)
        (Some (<[f := child]> (default ∅ (dirs dir_info)))).

Section builder.
Context (fs : filesystem).

(** One iteration of the loop over [sorted(os.listdir(path))];
    [get_dir_summary_rec] is the recursive call. *)
Definition scan_child
    (get_dir_summary_rec :
       string → gset string → outcome (summary * gset string))
    (path : string) (acc : outcome (entry * gset string)) (f : string)
    : outcome (entry * gset string) :=
  '(dir_info, all_dirs) ← acc;
  '(f_summary, all_dirs) ← get_dir_summary_rec (os_path_join path f) all_dirs;
  match f_summary !! f with
  | None => Raise KeyError
  | Some child => Ok (add_child dir_info f child, all_dirs)
  end.

(** [get_dir_summary(path, top_dir, all_dirs)].  The set [all_dirs] is
    mutated by the walk; the call returns the summary and the set as the
    walk left it.  Every path that is not a regular file and is not skipped
    is listed, and the [OSError] of [os.listdir] ends the walk.  The
    recursion follows the file system, not a data structure, hence the
    fuel. *)
Fixpoint get_dir_summary (fuel : nat) (path top_dir : string)
    (all_dirs : gset string) {struct fuel}
    : outcome (summary * gset string) :=
  match fuel with
  | O => OutOfFuel
  | S fuel' =>
      let name := os_path_basename path in
      if os_path_isfile fs path then
        Ok ({[ name := Entry (os_stat_st_size fs path) None None None ]},
            all_dirs)
      else
        let real_path := os_path_realpath fs path in
        if (os_path_islink fs path && String.prefix top_dir real_path)
           || bool_decide (real_path ∈ all_dirs)
        then Ok ({[ name := Entry 0 None None (Some ∅) ]}, all_dirs)
        else
          let all_dirs := {[ real_path ]} ∪ all_dirs in
          if os_listdir_OSError fs path then Raise OSError
          else
            '(dir_info, all_dirs) ←
              foldl (scan_child
                       (λ p ad, get_dir_summary fuel' p top_dir ad) path)
                    (Ok (Entry 0 None None (Some ∅), all_dirs))
                    (merge_sort String.le (os_listdir fs path));
            Ok ({[ name := dir_info ]}, all_dirs)
  end.

(** [build_summary_json(path)].  It calls [get_dir_summary] without its
    third argument, so the walk uses the default value of [all_dirs]: the
    one set object made when the function was defined, shared by all such
    calls of the process.  [all_dirs] is the state of that object before
    the call, the result holds its state after. *)
Definition build_summary_json (fuel : nat) (path : string)
    (all_dirs : gset string) : outcome (summary * gset string) :=
  if negb (os_path_exists fs path) then Raise IOError
  else if negb (os_path_isdir fs path) then Raise ValueError
  else
    let path := with_sep path in
    get_dir_summary fuel path path all_dirs.

(** ** Sequencer *)

(** [merge_summaries(path)].  [all_summaries] is what the function loads
    from the summary files of [path], in the order of their modification
    times; [all_dirs] is the state of the default set of
    [get_dir_summary], as in [build_summary_json]. *)
Definition merge_summaries (fuel : nat) (all_summaries : list summary)
    (path : string) (all_dirs : gset string)
    : outcome (Z * summary * gset string) :=
  let merged_summary := merge_all all_summaries in
  client_collected_bytes ← client_collected merged_summary;
  let path := with_sep path in
  '(last_summary, all_dirs) ← get_dir_summary fuel path path all_dirs;
  let merged_summary := _merge merged_summary last_summary true in
  merged_summary ← _delete_missing_entries merged_summary last_summary;
  Ok (client_collected_bytes, merged_summary, all_dirs).

End builder.

(** A path that the walk can take: a regular file, a link into the top
    directory, which is skipped, or a path that [os.listdir] accepts. *)
Definition walkable (fs : filesystem) (top_dir path : string) : bool :=
  os_path_isfile fs path
  || (os_path_islink fs path
      && String.prefix top_dir (os_path_realpath fs path))
  || negb (os_listdir_OSError fs path).

(** ** Auxiliary definitions of the proofs *)

(** The number of nodes of an entry. *)
Fixpoint entry_size (e : entry) : nat :=
  match dirs e with
  | None => 1%nat
  | Some d => S (map_fold (λ _ e' acc, (entry_size e' + acc)%nat) 0%nat d)
  end.

(** The loop of [_delete_missing_entries], run on the names of
    [processed] with [summary_old] as the dictionary it mutates. *)
Definition delete_loop (summary_old summary_new processed : summary)
    : outcome summary :=
  map_fold (λ name o acc,
              summary_old ← acc;
              r ← delete_name name o (summary_new !! name);
              Ok (store_or_del name r summary_old))
           (Ok summary_old) processed.

(** ** Well-formed summaries *)

(** The sizes of a directory are the sums over its children, with the
    defaults of the optional sizes; this holds at every directory of the
    entry. *)
Fixpoint dir_sums (e : entry) : bool :=
  match dirs e with
  | None => true
  | Some d =>
      bool_decide (original_size_bytes e = sum_sizes original_size_bytes d)
      && bool_decide (get_trimmed e = sum_sizes get_trimmed d)
      && bool_decide (get_collected e = sum_sizes get_collected d)
      && map_fold (λ _ e' acc, dir_sums e' && acc) true d
  end.

Definition well_formed (m : summary) : bool :=
  map_fold (λ _ e acc, dir_sums e && acc) true m.

(** An entry with the defaults of its optional sizes written out, at every
    node: two entries with the same image have the same names, the same
    kinds of nodes and the same three sizes everywhere. *)
Fixpoint sizes (e : entry) : entry :=
  Entry (original_size_bytes e)
        (Some (get_trimmed e))
        (Some (get_collected e))
        (match dirs e with
         | None => None
         | Some d => Some (sizes <$> d)
         end).

(** [_update_sizes] applied to every directory, children first. *)
Fixpoint update_all (e : entry) : entry :=
  match dirs e with
  | None => e
  | Some d => _update_sizes (set_dirs e (update_all <$> d))
  end.

(** An entry as the snapshot builder writes it: well-formed, and without the
    optional sizes. *)
Definition is_snapshot (e : entry) : bool :=
  dir_sums e
  && bool_decide (trimmed_size_bytes e = None)
  && bool_decide (collected_size_bytes e = None).

(** ** Nodes of a tree *)

(** The entry at a path of names, each name looked up among the children of
    the directory before it. *)
Fixpoint lookup_path (p : list string) (m : summary) : option entry :=
  match p with
  | [] => None
  | k :: p' =>
      match p' with
      | [] => m !! k
      | _ => e ← m !! k; d ← dirs e; lookup_path p' d
      end
  end.

(** A file and a directory without the optional sizes, as the snapshot
    builder and the summary files of the tests write them. *)
Definition file (size : Z) : entry := Entry size None None None.

Definition dir (size : Z) (children : list (string * entry)) : entry :=
  Entry size None None (Some (list_to_map children)).

Definition tree (root : entry) : summary := {[ ROOT_DIR := root ]}.

(** ** Trees of the examples *)

Definition ex_old_f : summary :=
  tree (dir 100 [("f", Entry 100 (Some 100) (Some 100) None)]).
Definition ex_new_f : summary := tree (dir 50 [("f", file 50)]).

Definition ex_old_trimmed : summary :=
  tree (Entry 2000 (Some 1000) (Some 1000)
          (Some {[ "log" := Entry 2000 (Some 1000) (Some 1000) None ]})).
Definition ex_new_trimmed : summary := tree (dir 1000 [("log", file 1000)]).

Definition ex_old_x : summary :=
  tree (dir 10 [("x", Entry 10 None (Some 10) None)]).
Definition ex_new_x : summary :=
  tree (dir 5 [("x", dir 5 [("y", file 5)])]).

Definition ex_old_d : summary :=
  tree (dir 7 [("d", dir 7 [("a", file 3); ("b", file 4)])]).
Definition ex_new_d : summary := tree (dir 100 [("d", file 100)]).

(** ** File systems of the examples *)

Definition is_one_of (p : string) (l : list string) : bool :=
  bool_decide (p ∈ l).

(** The directory [/r] with the files [a], [b] and [c] of the given sizes;
    a size 0 stands for a file that is not there.  Nothing but the
    directory can be listed. *)
Definition ex_fs (a b c : Z) : filesystem :=
  let names :=
    (if bool_decide (a = 0) then [] else ["a"]) ++
    (if bool_decide (b = 0) then [] else ["b"]) ++
    (if bool_decide (c = 0) then [] else ["c"]) in
  let files := (λ f, "/r/" +:+ f) <$> names in
  {| os_path_exists p := is_one_of p (["/r"; "/r/"] ++ files);
     os_path_isdir p := is_one_of p ["/r"; "/r/"];
     os_path_isfile p := is_one_of p files;
     os_path_islink p := false;
     os_path_realpath p := if bool_decide (p = "/r/") then "/r" else p;
     os_stat_st_size p :=
       if bool_decide (p = "/r/a") then a
       else if bool_decide (p = "/r/b") then b
       else if bool_decide (p = "/r/c") then c
       else 4096;
     os_listdir_OSError p := negb (is_one_of p ["/r"; "/r/"]);
     os_listdir p := if is_one_of p ["/r"; "/r/"] then rev names else [] |}.

(** The directory [/r] with one entry, the FIFO [p]: it exists, it is
    neither a regular file nor a directory nor a link, and [os.listdir]
    raises for it. *)
Definition ex_fs_fifo : filesystem :=
  {| os_path_exists p := is_one_of p ["/r"; "/r/"; "/r/p"];
     os_path_isdir p := is_one_of p ["/r"; "/r/"];
     os_path_isfile p := false;
     os_path_islink p := false;
     os_path_realpath p := if bool_decide (p = "/r/") then "/r" else p;
     os_stat_st_size p := 0;
     os_listdir_OSError p := negb (is_one_of p ["/r"; "/r/"]);
     os_listdir p := if is_one_of p ["/r"; "/r/"] then ["p"] else [] |}.

Definition ex_parent : entry :=
  Entry 150 (Some 150) (Some 150)
        (Some {[ "gone" := Entry 100 (Some 100) (Some 100) None;
                 "kept" := file 50 ]}).
Definition ex_gone_before : summary := tree ex_parent.
Definition ex_gone_live : summary := tree (dir 50 [("kept", file 50)]).
Definition ex_gone_after : summary :=
  tree (Entry 150 (Some 50) (Some 150)
          (Some {[ "gone" := Entry 100 (Some 0) (Some 100) None;
                   "kept" := file 50 ]})).

Definition ex_summary_1 : summary := tree (dir 10 [("a", file 10)]).
Definition ex_summary_2 : summary :=
  tree (dir 30 [("a", file 10); ("b", file 20)]).
Definition ex_last : summary :=
  tree (dir 40 [("a", file 10); ("b", file 25); ("c", file 5)]).
Definition ex_merged : summary :=
  tree (Entry 40 (Some 40) (Some 60)
          (Some {[ "a" := file 10;
                   "b" := Entry 25 (Some 25) (Some 45) None;
                   "c" := file 5 ]})).

(** ** The data of [utils_unittest.py] *)

Definition SIZE : Z := 10.
Definition SUMMARY_1_SIZE : Z := 171.
Definition SUMMARY_2_SIZE : Z := 345.

Definition SUMMARY_1 : summary :=
  tree (dir (4 * SIZE)
    [("file1", file SIZE);
     ("file2", file SIZE);
     ("folder_not_overwritten", dir SIZE [("file1", file SIZE)]);
     ("file_to_be_overwritten", file SIZE)]).

Definition SUMMARY_2 : summary :=
  tree (dir (26 * SIZE)
    [("file1", file SIZE);
     ("file2", file (2 * SIZE));
     ("file3", file SIZE);
     ("folder1",
        Entry (20 * SIZE) (Some SIZE) None
              (Some {[ "file4" := Entry (20 * SIZE) (Some SIZE) None None ]}));
     ("folder_not_overwritten", file (100 * SIZE));
     ("file_to_be_overwritten", dir SIZE [("file1", file SIZE)]);
     ("folder_tobe_deleted", dir SIZE [("file_tobe_deleted", file SIZE)])]).

(** The summary of the directory that [setUp] of [MergeSummaryTest]
    creates, the two summary files included. *)
Definition test_dir_summary : summary :=
  tree (dir (17 * SIZE + SUMMARY_1_SIZE + SUMMARY_2_SIZE)
    [("dir_summary_1.json", file SUMMARY_1_SIZE);
     ("dir_summary_2.json", file SUMMARY_2_SIZE);
     ("file1", file SIZE);
     ("file2", file (2 * SIZE));
     ("file3", file SIZE);
     ("folder1", dir SIZE [("file4", file SIZE)]);
     ("folder2", dir (10 * SIZE) [("server_file", file (10 * SIZE))]);
     ("folder_not_overwritten", dir SIZE [("file1", file SIZE)]);
     ("file_to_be_overwritten", dir SIZE [("file1", file SIZE)])]).

Definition EXPECTED_MERGED_SUMMARY : summary :=
  tree (Entry (37 * SIZE + SUMMARY_1_SIZE + SUMMARY_2_SIZE)
              (Some (17 * SIZE + SUMMARY_1_SIZE + SUMMARY_2_SIZE))
              (Some (19 * SIZE + SUMMARY_1_SIZE + SUMMARY_2_SIZE))
    (Some (list_to_map
    [("dir_summary_1.json", file SUMMARY_1_SIZE);
     ("dir_summary_2.json", file SUMMARY_2_SIZE);
     ("file1", file SIZE);
     ("file2", Entry (2 * SIZE) (Some (2 * SIZE)) (Some (3 * SIZE)) None);
     ("file3", file SIZE);
     ("folder1",
        Entry (20 * SIZE) (Some SIZE) (Some SIZE)
              (Some {[ "file4" := Entry (20 * SIZE) (Some SIZE) None None ]}));
     ("folder2",
        Entry (10 * SIZE) (Some (10 * SIZE)) (Some (10 * SIZE))
              (Some {[ "server_file" := file (10 * SIZE) ]}));
     ("folder_not_overwritten",
        Entry SIZE (Some SIZE) (Some SIZE) (Some {[ "file1" := file SIZE ]}));
     ("file_to_be_overwritten",
        Entry SIZE (Some SIZE) (Some SIZE) (Some {[ "file1" := file SIZE ]}));
     ("folder_tobe_deleted",
        Entry SIZE (Some 0) (Some SIZE)
              (Some {[ "file_tobe_deleted" :=
                         Entry SIZE (Some 0) (Some SIZE) None ]}))]))).

(** ** Further trees of the examples *)

Definition ex_only_c : summary := tree (dir 5 [("c", file 5)]).

(** ** Properties of every node *)

(** [P] holds at an entry and at every entry below it. *)
Fixpoint all_nodes (P : entry → bool) (e : entry) : bool :=
  P e
  && match dirs e with
     | None => true
     | Some d => map_fold (λ _ e' acc, all_nodes P e' && acc) true d
     end.

(** [P] holds at every node of a summary. *)
Definition all_entries (P : entry → bool) (m : summary) : bool :=
  map_fold (λ _ e acc, all_nodes P e && acc) true m.

(** The trimmed size is not negative and the collected size is not below
    it, with the defaults of absent sizes. *)
Definition sizes_ordered (e : entry) : bool :=
  bool_decide (0 ≤ get_trimmed e ≤ get_collected e).

(** A node as the snapshot builder writes it: no trimmed size, no collected
    size, an original size that is not negative. *)
Definition snapshot_node (e : entry) : bool :=
  bool_decide (trimmed_size_bytes e = None
               ∧ collected_size_bytes e = None
               ∧ 0 ≤ original_size_bytes e).

(** ** The shape of two summaries *)

(** Some directory of [o] is a file in [n], at [o] itself or below it,
    under names that the two sides have as directories. *)
Fixpoint blocked (o : entry) (n : option entry) : bool :=
  match n with
  | None => false
  | Some ne =>
      match dirs o with
      | None => false
      | Some od =>
          match dirs ne with
          | None => true
          | Some nd =>
              map_fold (λ k o' acc, blocked o' (nd !! k) || acc) false od
          end
      end
  end.

Definition blocked_summary (summary_old summary_new : summary) : bool :=
  map_fold (λ k o acc, blocked o (summary_new !! k) || acc)
           false summary_old.

(** Every entry of [summary_old] is in [summary_new] at the same path, a
    directory as a directory. *)
Definition covered (summary_old summary_new : summary) : Prop :=
  ∀ p o, lookup_path p summary_old = Some o →
    ∃ n, lookup_path p summary_new = Some n
         ∧ (is_Some (dirs o) → is_Some (dirs n)).

(** A state file of autotest beside a result file, and the live directory
    without the state file. *)
Definition ex_state_before : summary :=
  tree (dir 15 [("control.autoserv.state", file 5); ("kept", file 10)]).
Definition ex_state_live : summary := tree (dir 10 [("kept", file 10)]).
Definition ex_state_after : summary :=
  tree (Entry 10 (Some 10) (Some 10) (Some {[ "kept" := file 10 ]})).

(** ** Result size information ([utils_lib.py]) *)

Record ResultSizeInfo := {
  client_result_collected_KB : Z;
  original_result_total_KB : Z;
  result_uploaded_KB : Z;
  result_throttled : bool
}.

(** [get_result_size_info(client_collected_bytes, summary)].  The sizes are
    integers and [/] is the integer division of Python 2, which rounds down
    as [Z.div] does; [summary[ROOT_DIR]] and [root_entry['/T']] raise
    [KeyError] for a missing key. *)
Definition get_result_size_info (client_collected_bytes : Z)
    (summary : gmap string entry) : outcome ResultSizeInfo :=
  match summary !! ROOT_DIR with
  | None => Raise KeyError
  | Some root_entry =>
      match trimmed_size_bytes root_entry with
      | None => Raise KeyError
      | Some trimmed =>
          Ok {| client_result_collected_KB := client_collected_bytes / 1024;
                original_result_total_KB :=
                  original_size_bytes root_entry / 1024;
                result_uploaded_KB := trimmed / 1024;
                result_throttled :=
                  bool_decide (original_size_bytes root_entry ≠ trimmed) |}
      end
  end.

(** A file whose trimmed size is not above its original size, and a file
    that is not trimmed; directories pass. *)
Definition file_within (e : entry) : bool :=
  bool_decide (dirs e = None → get_trimmed e ≤ original_size_bytes e).

Definition file_untrimmed (e : entry) : bool :=
  bool_decide (dirs e = None → get_trimmed e = original_size_bytes e).

(** No file of [summary_old] is a directory in [summary_new] at the same
    path. *)
Definition no_file_to_dir (summary_old summary_new : summary) : Prop :=
  ∀ p o n,
    lookup_path p summary_old = Some o →
    lookup_path p summary_new = Some n →
    dirs o = None → dirs n = None.

(** * Properties *)

(** ** Induction on entries *)

Lemma entry_size_child s t c d k e :
  d !! k = Some e →
  (entry_size e < entry_size (Entry s t c (Some d)))%nat.
Proof.
  intros Hk. cbn [entry_size dirs].
  rewrite (map_fold_delete_L _ _ k e d); [lia| |done].
  intros; lia.
Qed.

(** Induction on an entry, with the hypothesis for every child of a
    directory. *)
Lemma entry_ind' (P : entry → Prop) :
  (∀ s t c, P (Entry s t c None)) →
  (∀ s t c d, map_Forall (λ _ e, P e) d → P (Entry s t c (Some d))) →
  ∀ e, P e.
Proof.
  intros Hfile Hdir e.
  induction (Nat.lt_wf_0_projected entry_size e) as [[s t c [d|]] _ IH].
  - apply Hdir. intros k e' Hk. apply IH. by eapply entry_size_child.
  - apply Hfile.
Qed.

(** ** Sums over the children of a directory *)

Lemma sum_sizes_empty f : sum_sizes f ∅ = 0.
Proof. unfold sum_sizes. by rewrite map_fold_empty. Qed.

Lemma sum_sizes_insert f k e (d : summary) :
  d !! k = None → sum_sizes f (<[k := e]> d) = f e + sum_sizes f d.
Proof.
  intros Hk. unfold sum_sizes.
  rewrite map_fold_insert_L; [done| |done]. intros; lia.
Qed.

Lemma sum_sizes_delete f k e (d : summary) :
  d !! k = Some e → sum_sizes f d = f e + sum_sizes f (delete k d).
Proof.
  intros Hk. unfold sum_sizes.
  rewrite (map_fold_delete_L _ _ k e d); [done| |done]. intros; lia.
Qed.

(** Replacing one child changes a sum by the difference of the child's
    contributions. *)
Lemma sum_sizes_replace f k e e' (d : summary) :
  d !! k = Some e →
  sum_sizes f (<[k := e']> d) = sum_sizes f d - f e + f e'.
Proof.
  intros Hk. rewrite <-insert_delete_eq.
  rewrite sum_sizes_insert by apply lookup_delete_eq.
  rewrite (sum_sizes_delete f k e d) by done. lia.
Qed.

Lemma sum_sizes_singleton f k e : sum_sizes f {[ k := e ]} = f e.
Proof.
  rewrite <-insert_empty, sum_sizes_insert by apply lookup_empty.
  rewrite sum_sizes_empty. lia.
Qed.

Lemma sum_sizes_fmap f (g : entry → entry) (d : summary) :
  sum_sizes f (g <$> d) = sum_sizes (f ∘ g) d.
Proof. unfold sum_sizes. by rewrite map_fold_fmap. Qed.

Lemma sum_sizes_ext f g (d : summary) :
  (∀ k e, d !! k = Some e → f e = g e) → sum_sizes f d = sum_sizes g d.
Proof.
  induction d as [|k e d Hk IH] using map_ind; intros Hfg.
  - by rewrite !sum_sizes_empty.
  - rewrite !sum_sizes_insert by done. f_equal.
    + apply (Hfg k). apply lookup_insert_eq.
    + apply IH. intros k' e' Hk'. apply (Hfg k').
      rewrite lookup_insert_ne; [done|]. intros ->. congruence.
Qed.

(** ** The merge, name by name *)

Lemma lookup_store name r (m : summary) k :
  store name r m !! k =
    if bool_decide (k = name) then from_option Some (m !! k) r else m !! k.
Proof.
  destruct r as [e|]; simpl; case_bool_decide as Hk; subst; try done.
  - by rewrite lookup_insert_eq.
  - by rewrite lookup_insert_ne.
Qed.

(** What [summary_old] holds under a name after [_merge]: every name is
    handled by its own iteration, whatever the order of the iterations. *)
Lemma lookup_merge summary_old summary_new is_final k :
  _merge summary_old summary_new is_final !! k =
    match summary_new !! k with
    | Some n =>
        from_option Some (summary_old !! k)
                    (merge_name is_final n (summary_old !! k))
    | None => summary_old !! k
    end.
Proof.
  unfold _merge. revert k.
  apply (map_fold_weak_ind (λ r (m : summary), ∀ k,
    r !! k = match m !! k with
             | Some n =>
                 from_option Some (summary_old !! k)
                             (merge_name is_final n (summary_old !! k))
             | None => summary_old !! k
             end)).
  - intros k. by rewrite lookup_empty.
  - intros i x m r Hi IH k. rewrite lookup_store.
    case_bool_decide as Hk; subst.
    + rewrite lookup_insert_eq, IH, Hi. done.
    + rewrite lookup_insert_ne by done. apply IH.
Qed.

(** The directory branch of an iteration is a [_merge] of the children. *)
Lemma merge_name_dir is_final n o nd :
  dirs n = Some nd →
  merge_name is_final n (Some o) =
    Some (_update_sizes
            (set_dirs (force_dir o)
               (_merge (default ∅ (dirs (force_dir o))) nd is_final))).
Proof. destruct n as [s t c [d|]]; intros [= ->]; reflexivity. Qed.

Lemma merge_name_new is_final n :
  merge_name is_final n None = Some (_update_sizes n).
Proof. by destruct n as [s t c [d|]]. Qed.

Lemma merge_name_file is_final n o :
  dirs n = None →
  merge_name is_final n (Some o) =
    match dirs o with
    | Some _ => None
    | None => merge_file is_final n o
    end.
Proof. destruct n as [s t c [d|]]; intros [=]; reflexivity. Qed.

(** ** The deletion pass, name by name *)

Lemma lookup_store_or_del name r (m : summary) k :
  store_or_del name r m !! k = if bool_decide (k = name) then r else m !! k.
Proof.
  destruct r as [e|]; simpl; case_bool_decide as Hk; subst.
  - by rewrite lookup_insert_eq.
  - by rewrite lookup_insert_ne.
  - by rewrite lookup_delete_eq.
  - by rewrite lookup_delete_ne.
Qed.


Lemma delete_loop_ok summary_old summary_new processed res :
  delete_loop summary_old summary_new processed = Ok res →
  ∀ k,
    match processed !! k with
    | Some o =>
        delete_name k o (summary_new !! k) = Ok (res !! k)
    | None => res !! k = summary_old !! k
    end.
Proof.
  unfold delete_loop. revert res.
  apply (map_fold_weak_ind (λ acc (m : summary), ∀ res, acc = Ok res → ∀ k,
    match m !! k with
    | Some o => delete_name k o (summary_new !! k) = Ok (res !! k)
    | None => res !! k = summary_old !! k
    end)).
  - intros res [= <-] k. by rewrite lookup_empty.
  - intros i x m acc Hi IH res Hres k.
    destruct acc as [cur| |]; simplify_eq/=.
    destruct (delete_name i x (summary_new !! i)) as [r| |] eqn:Hr;
      simplify_eq/=.
    specialize (IH cur eq_refl k). rewrite lookup_store_or_del.
    case_bool_decide as Hk; subst.
    + by rewrite lookup_insert_eq.
    + by rewrite lookup_insert_ne.
Qed.

Lemma delete_name_dir name o od new :
  dirs o = Some od →
  delete_name name o new =
    match new with
    | Some n =>
        match dirs n with
        | Some nd =>
            d ← _delete_missing_entries od nd;
            Ok (Some (_update_sizes (set_dirs o d)))
        | None => Raise KeyError
        end
    | None =>
        d ← _delete_missing_entries od ∅;
        Ok (Some (_update_sizes (set_dirs o d)))
    end.
Proof.
  destruct o as [s t c [d|]]; intros [= ->].
  destruct new as [[s' t' c' [nd|]]|]; reflexivity.
Qed.

Lemma delete_name_file name o new :
  dirs o = None →
  delete_name name o new =
    match new with
    | Some _ => Ok (Some o)
    | None =>
        if bool_decide (name ∈ FILES_TO_IGNORE) then Ok None
        else Ok (Some (trim_missing o))
    end.
Proof.
  destruct o as [s t c [d|]]; intros [=]. by destruct new.
Qed.

(** ** The directory-sum invariant *)

Lemma all_fold_Forall (f : entry → bool) (d : summary) :
  map_fold (λ _ e acc, f e && acc) true d = true ↔
  map_Forall (λ _ e, f e = true) d.
Proof.
  induction d as [|k e d Hk IH] using map_ind.
  - rewrite map_fold_empty. split; [intros _; apply map_Forall_empty|done].
  - rewrite map_fold_insert_L; [|intros j1 j2 z1 z2 y _ _ _; by destruct (f z1), (f z2), y|done].
    rewrite andb_true_iff, IH, map_Forall_insert by done. done.
Qed.

Lemma well_formed_Forall (m : summary) :
  well_formed m = true ↔ map_Forall (λ _ e, dir_sums e = true) m.
Proof. apply all_fold_Forall. Qed.

Lemma dir_sums_dir s t c d :
  dir_sums (Entry s t c (Some d)) = true ↔
  s = sum_sizes original_size_bytes d
  ∧ default s t = sum_sizes get_trimmed d
  ∧ default (default s t) c = sum_sizes get_collected d
  ∧ map_Forall (λ _ e, dir_sums e = true) d.
Proof.
  cbn [dir_sums dirs]. rewrite !andb_true_iff, !bool_decide_eq_true.
  rewrite all_fold_Forall. unfold get_collected, get_trimmed. simpl.
  tauto.
Qed.

(** A recomputed directory satisfies the invariant as soon as its children
    do. *)
Lemma dir_sums_update_sizes e :
  (∀ d, dirs e = Some d → map_Forall (λ _ e', dir_sums e' = true) d) →
  dir_sums (_update_sizes e) = true.
Proof.
  destruct e as [s t c [d|]]; intros Hd; [|done].
  unfold _update_sizes; cbn [dirs]. apply dir_sums_dir. auto.
Qed.

Lemma dir_sums_sums e d :
  dirs e = Some d →
  dir_sums e = true →
  original_size_bytes e = sum_sizes original_size_bytes d
  ∧ get_trimmed e = sum_sizes get_trimmed d
  ∧ get_collected e = sum_sizes get_collected d.
Proof.
  destruct e as [s t c d']. intros [= ->] H%dir_sums_dir.
  unfold get_collected, get_trimmed. simpl. tauto.
Qed.

Lemma get_trimmed_Entry s t c d : get_trimmed (Entry s t c d) = default s t.
Proof. reflexivity. Qed.

Lemma get_collected_Entry s t c d :
  get_collected (Entry s t c d) = default (default s t) c.
Proof. reflexivity. Qed.

Lemma dir_sums_children s t c d :
  dir_sums (Entry s t c (Some d)) = true →
  map_Forall (λ _ e, dir_sums e = true) d.
Proof. intros H%dir_sums_dir. tauto. Qed.

Lemma force_dir_children o :
  dir_sums o = true →
  map_Forall (λ _ e, dir_sums e = true) (default ∅ (dirs (force_dir o))).
Proof.
  destruct o as [s t c [d|]]; intros Ho; unfold force_dir; simpl.
  - by apply dir_sums_children in Ho.
  - apply map_Forall_empty.
Qed.

(** [_merge] keeps the invariant of the old entries when every iteration
    yields an entry with the invariant. *)
Lemma merge_Forall_dir_sums summary_old summary_new is_final :
  map_Forall (λ _ e, dir_sums e = true) summary_old →
  map_Forall (λ _ n, ∀ o e,
                (∀ o', o = Some o' → dir_sums o' = true) →
                merge_name is_final n o = Some e → dir_sums e = true)
             summary_new →
  map_Forall (λ _ e, dir_sums e = true)
             (_merge summary_old summary_new is_final).
Proof.
  intros Hold Hnew k e. rewrite lookup_merge.
  destruct (summary_new !! k) as [n|] eqn:Hn; [|by apply Hold].
  destruct (merge_name is_final n (summary_old !! k)) as [e'|] eqn:He';
    simpl; [|by apply Hold].
  intros [= <-]. eapply (Hnew k n Hn); [|done].
  intros o' Ho'. by eapply Hold.
Qed.

Lemma merge_name_dir_sums is_final n :
  dir_sums n = true →
  ∀ o e,
    (∀ o', o = Some o' → dir_sums o' = true) →
    merge_name is_final n o = Some e → dir_sums e = true.
Proof.
  induction n as [s t c|s t c d IH] using entry_ind'; intros Hn o e Ho.
  - destruct o as [o|]; [|by intros [= <-]].
    rewrite merge_name_file by done.
    destruct (dirs o) as [od|] eqn:Hod; [done|].
    unfold merge_file. rewrite Hod.
    repeat case_match; intros [= <-]; try done.
    unfold _update_sizes. rewrite Hod. destruct o; simplify_eq/=. done.
  - destruct o as [o|].
    + rewrite (merge_name_dir _ _ _ d) by done. intros [= <-].
      apply dir_sums_update_sizes. intros d' [= <-].
      apply merge_Forall_dir_sums.
      * apply force_dir_children. by apply Ho.
      * intros k n' Hn'. apply (IH k n' Hn').
        by eapply dir_sums_children.
    + rewrite merge_name_new. intros [= <-].
      apply dir_sums_update_sizes. intros d' [= <-].
      by eapply dir_sums_children.
Qed.

(** [_merge] of two well-formed summaries is well-formed. *)
Lemma merge_well_formed summary_old summary_new is_final :
  well_formed summary_old = true →
  well_formed summary_new = true →
  well_formed (_merge summary_old summary_new is_final) = true.
Proof.
  rewrite !well_formed_Forall. intros Hold Hnew.
  apply merge_Forall_dir_sums; [done|].
  intros k n Hn. apply merge_name_dir_sums. by eapply Hnew.
Qed.

(** ** Merging a summary with itself *)

Lemma merge_name_self is_final e :
  merge_name is_final e (Some e) = Some (update_all e).
Proof.
  induction e as [s t c|s t c d IH] using entry_ind'.
  - rewrite merge_name_file by done. unfold merge_file. simpl.
    rewrite bool_decide_eq_false_2 by (by intros []). done.
  - rewrite (merge_name_dir _ _ _ d) by done.
    assert (_merge d d is_final = update_all <$> d) as Hd; [|cbn; by rewrite Hd].
    apply map_eq. intros k. rewrite lookup_merge, lookup_fmap.
    destruct (d !! k) as [n|] eqn:Hn; [|done].
    by rewrite (IH k n Hn).
Qed.

(** When both arguments of [_merge] are one summary (in the program: one
    object, or a copy of it) every file is left alone and every directory
    has its sizes recomputed, children first. *)
Lemma merge_self summary is_final :
  _merge summary summary is_final = update_all <$> summary.
Proof.
  apply map_eq. intros k. rewrite lookup_merge, lookup_fmap.
  destruct (summary !! k) as [n|] eqn:Hn; [|done].
  by rewrite merge_name_self.
Qed.

Lemma sizes_fields e e' :
  sizes e = sizes e' →
  original_size_bytes e = original_size_bytes e'
  ∧ get_trimmed e = get_trimmed e'
  ∧ get_collected e = get_collected e'.
Proof.
  destruct e as [s t c [d|]], e' as [s' t' c' [d'|]]; simpl;
    intros [=]; auto.
Qed.

Lemma sizes_update_all e :
  dir_sums e = true → sizes (update_all e) = sizes e.
Proof.
  induction e as [s t c|s t c d IH] using entry_ind'; intros He; [done|].
  apply dir_sums_dir in He as (HS & HT & HC & Hd).
  assert (∀ k e, d !! k = Some e → sizes (update_all e) = sizes e) as Heq.
  { intros k e Hk. apply (IH k e Hk). by eapply Hd. }
  cbn [update_all dirs _update_sizes set_dirs sizes original_size_bytes
       trimmed_size_bytes collected_size_bytes get_trimmed get_collected
       default].
  rewrite !sum_sizes_fmap. f_equal.
  - rewrite HS. apply sum_sizes_ext. intros k e Hk. simpl.
    by apply sizes_fields, (Heq k).
  - f_equal. unfold get_trimmed in HT. rewrite HT.
    apply sum_sizes_ext. intros k e Hk. simpl.
    by apply sizes_fields, (Heq k).
  - f_equal. unfold get_collected, get_trimmed in HC. rewrite HC.
    apply sum_sizes_ext. intros k e Hk. simpl.
    by apply sizes_fields, (Heq k).
  - f_equal. rewrite <-map_fmap_compose. apply map_fmap_ext.
    intros k e Hk. by apply (Heq k).
Qed.

(** ** The deletion pass and the invariant *)

Lemma delete_name_dir_sums o : ∀ name new e,
  delete_name name o new = Ok (Some e) → dir_sums e = true.
Proof.
  induction o as [s t c|s t c d IH] using entry_ind'; intros name new e.
  - rewrite delete_name_file by done.
    repeat case_match; intros [= <-]; done.
  - rewrite (delete_name_dir _ _ d) by done.
    assert (∀ nd res, _delete_missing_entries d nd = Ok res →
              map_Forall (λ _ e', dir_sums e' = true) res) as Hloop.
    { intros nd res Hres k e' Hk.
      pose proof (delete_loop_ok _ _ _ _ Hres k) as Hok.
      destruct (d !! k) as [o'|] eqn:Ho'; [|congruence].
      rewrite Hk in Hok. by eapply (IH k o' Ho'). }
    destruct new as [n|].
    + destruct (dirs n) as [nd|]; [|done].
      destruct (_delete_missing_entries d nd) as [res| |] eqn:Hres; [|done..].
      intros [= <-]. apply dir_sums_update_sizes. intros d' [= <-]. eauto.
    + destruct (_delete_missing_entries d ∅) as [res| |] eqn:Hres; [|done..].
      intros [= <-]. apply dir_sums_update_sizes. intros d' [= <-]. eauto.
Qed.

(** Whatever [_delete_missing_entries] returns is well-formed. *)
Lemma delete_missing_entries_well_formed summary_old summary_new res :
  _delete_missing_entries summary_old summary_new = Ok res →
  well_formed res = true.
Proof.
  intros Hres. apply well_formed_Forall. intros k e Hk.
  pose proof (delete_loop_ok _ _ _ _ Hres k) as Hok.
  destruct (summary_old !! k) as [o|] eqn:Ho.
  - rewrite Hk in Hok. by eapply delete_name_dir_sums.
  - congruence.
Qed.

(** The iteration for a directory runs the pass on its children, against
    the children of the new side or against nothing. *)
Lemma delete_name_parent pname P new r children :
  dirs P = Some children →
  delete_name pname P new = Ok r →
  ∃ nd res,
    (∀ name,
        (∀ n nd', new = Some n → dirs n = Some nd' → nd' !! name = None) →
        nd !! name = None)
    ∧ _delete_missing_entries children nd = Ok res
    ∧ r = Some (_update_sizes (set_dirs P res)).
Proof.
  intros HP. rewrite (delete_name_dir _ _ children) by done.
  destruct new as [n|].
  - destruct (dirs n) as [nd|] eqn:Hdn; [|done].
    destruct (_delete_missing_entries children nd) as [res| |] eqn:Hres;
      [|done..].
    intros [= <-]. exists nd, res. split_and!; [|done..].
    intros name Hname. by eapply Hname.
  - destruct (_delete_missing_entries children ∅) as [res| |] eqn:Hres;
      [|done..].
    intros [= <-]. exists ∅, res. split_and!; [|done..].
    intros name _. apply lookup_empty.
Qed.

(** The pass raises when a name is a directory in the old summary and a
    file in the new one, as after the final merge of the summary of a
    directory [d] with a live tree that has a file [d]. *)
Example delete_pass_KeyError :
  _delete_missing_entries (_merge ex_old_d ex_new_d true) ex_new_d =
    Raise KeyError.
Proof. vm_compute. reflexivity. Qed.

(** ** The merge at a path *)

Lemma lookup_path_cons k p (m : summary) :
  p ≠ [] →
  lookup_path (k :: p) m = e ← m !! k; d ← dirs e; lookup_path p d.
Proof. by destruct p. Qed.

(** Under a path that both summaries have, the merge is the iteration for
    the two entries at that path. *)
Lemma lookup_path_merge p : ∀ summary_old summary_new is_final o n,
  lookup_path p summary_old = Some o →
  lookup_path p summary_new = Some n →
  lookup_path p (_merge summary_old summary_new is_final) =
    from_option Some (Some o) (merge_name is_final n (Some o)).
Proof.
  induction p as [|k p IH]; intros so sn is_final o n Ho Hn; [done|].
  destruct (decide (p = [])) as [->|Hp].
  - simpl in *. by rewrite lookup_merge, Hn, Ho.
  - rewrite lookup_path_cons in Ho, Hn |- * by done.
    destruct (so !! k) as [[s t c [od|]]|] eqn:Hok; simplify_eq/=.
    destruct (sn !! k) as [[s' t' c' [nd|]]|] eqn:Hnk; simplify_eq/=.
    rewrite lookup_merge, Hnk, Hok.
    rewrite (merge_name_dir _ _ _ nd) by done. simpl.
    by apply IH.
Qed.

Lemma merge_empty summary_new is_final :
  _merge ∅ summary_new is_final = _update_sizes <$> summary_new.
Proof.
  apply map_eq. intros k. rewrite lookup_merge, lookup_fmap, lookup_empty.
  destruct (summary_new !! k) as [n|]; [|done].
  by rewrite merge_name_new.
Qed.

(** ** Paths *)

Lemma has_sep_app a b : has_sep (a +:+ b) = has_sep a || has_sep b.
Proof.
  induction a as [|c a IH]; simpl; [done|]. by rewrite IH, orb_assoc.
Qed.

Lemma basename_no_sep f : has_sep f = false → os_path_basename f = f.
Proof.
  destruct f as [|c f]; [done|]. intros Hf.
  cbn [os_path_basename]. by rewrite Hf.
Qed.

Lemma basename_app_sep a f :
  has_sep f = false → os_path_basename (a +:+ String sep f) = f.
Proof.
  intros Hf. induction a as [|c a IH].
  - simpl. by apply basename_no_sep.
  - change (String c a +:+ String sep f)
      with (String c (a +:+ String sep f)).
    cbn [os_path_basename has_sep].
    rewrite has_sep_app. simpl. by rewrite !orb_true_r.
Qed.

Lemma endswith_sep_app_sep p : endswith_sep (p +:+ "/") = true.
Proof.
  induction p as [|c p IH]; [done|].
  destruct p as [|c' p]; [done|]. exact IH.
Qed.

Lemma endswith_sep_snoc a : endswith_sep a = true → ∃ a', a = a' +:+ "/".
Proof.
  induction a as [|c a IH]; [done|]. destruct a as [|c' a].
  - simpl. intros ->%Ascii.eqb_eq. by exists "".
  - intros Ha. destruct IH as [a' Ha']; [done|].
    exists (String c a'). simpl. by rewrite Ha'.
Qed.

Lemma endswith_sep_with_sep p : endswith_sep (with_sep p) = true.
Proof.
  unfold with_sep. destruct (endswith_sep p) eqn:Hp; [done|].
  apply endswith_sep_app_sep.
Qed.

(** The root key of a summary built for a path that ends with [/] is
    [ROOT_DIR]. *)
Lemma basename_with_sep p : os_path_basename (with_sep p) = ROOT_DIR.
Proof.
  destruct (endswith_sep_snoc _ (endswith_sep_with_sep p)) as [a ->].
  by apply basename_app_sep.
Qed.

Lemma append_cons x (a b : string) : String x a +:+ b = String x (a +:+ b).
Proof. reflexivity. Qed.

Lemma append_assoc (a b c : string) : (a +:+ b) +:+ c = a +:+ b +:+ c.
Proof. induction a as [|x a IH]; [done|]. by rewrite !append_cons, IH. Qed.

Lemma basename_join a f :
  has_sep f = false → os_path_basename (os_path_join a f) = f.
Proof.
  intros Hf. unfold os_path_join.
  assert (String.prefix "/" f = false) as ->.
  { destruct f as [|c f]; [done|]. cbn [String.prefix has_sep] in *.
    apply orb_false_elim in Hf as [Hc _].
    apply Ascii.eqb_neq in Hc. unfold sep in Hc.
    destruct (ascii_dec "/" c); [congruence|done]. }
  destruct (bool_decide (a = "")) eqn:Ha; simpl.
  - apply bool_decide_eq_true in Ha as ->. simpl. by apply basename_no_sep.
  - destruct (endswith_sep a) eqn:Hend.
    + apply endswith_sep_snoc in Hend as [a' ->].
      rewrite append_assoc. by apply basename_app_sep.
    + by apply basename_app_sep.
Qed.

(** ** The directory walk *)

(** The cases of a call of [get_dir_summary] with fuel left: the path is
    a file; the directory is skipped; [os.listdir] raises; the loop over
    the directory returned, raised, or ran out of fuel. *)
Tactic Notation "walk_cases" "as"
    ident(dir_info) ident(all_dirs) ident(Hskip) ident(Hloop) :=
  simpl;
  destruct (os_path_isfile _ _);
    [|destruct (_ || _) eqn:Hskip;
      [|destruct (os_listdir_OSError _ _);
        [|destruct (foldl _ _ _) as [[dir_info all_dirs]| |] eqn:Hloop]]].

Section builder_facts.
Context (fs : filesystem).

Lemma scan_child_not_ok rec path acc names :
  (¬ ∃ r, acc = Ok r) →
  foldl (scan_child rec path) acc names = acc.
Proof.
  revert acc. induction names as [|f names IH]; intros acc Hacc; [done|].
  simpl. destruct acc as [r| |]; [by destruct Hacc; eauto|..]; by apply IH.
Qed.

(** Induction over the loop of [get_dir_summary]: a property of the
    directory under construction, the set of visited directories and the
    names still to come. *)
Lemma scan_loop_ind rec path
    (I : list string → entry → gset string → Prop) :
  (∀ f rest dir_info all_dirs f_summary all_dirs' child,
      I (f :: rest) dir_info all_dirs →
      rec (os_path_join path f) all_dirs = Ok (f_summary, all_dirs') →
      f_summary !! f = Some child →
      I rest (add_child dir_info f child) all_dirs') →
  ∀ names dir_info all_dirs dir_info' all_dirs',
    I names dir_info all_dirs →
    foldl (scan_child rec path) (Ok (dir_info, all_dirs)) names =
      Ok (dir_info', all_dirs') →
    I [] dir_info' all_dirs'.
Proof.
  intros Hstep names.
  induction names as [|f names IH]; intros info ad info' ad' HI; simpl.
  - by intros [= <- <-].
  - destruct (rec (os_path_join path f) ad) as [[s ad1]| |] eqn:Hrec;
      simpl; [|by rewrite scan_child_not_ok by (by intros [? ?])..].
    destruct (s !! f) as [child|] eqn:Hchild;
      [|by rewrite scan_child_not_ok by (by intros [? ?])].
    apply IH. by eapply Hstep.
Qed.

(** The walk only adds to the set of visited directories. *)
Lemma get_dir_summary_mono fuel : ∀ path top_dir all_dirs s all_dirs',
  get_dir_summary fs fuel path top_dir all_dirs = Ok (s, all_dirs') →
  all_dirs ⊆ all_dirs'.
Proof.
  induction fuel as [|fuel IH]; intros path top ad s ad'; [done|].
  walk_cases as info ad1 Hskip Hloop;
    [by intros [= _ <-]|by intros [= _ <-]|done| |done|done].
  intros [= _ <-].
  eapply (scan_loop_ind _ path
    (λ _ _ ad2, {[os_path_realpath fs path]} ∪ ad ⊆ ad2)) in Hloop;
    [set_solver| |done].
  intros f rest info0 ad0 s0 ad0' child Had Hrec _.
  apply IH in Hrec. by etrans.
Qed.

(** The walk raises nothing but the [KeyError] of [f_summary[f]] and the
    [OSError] of [os.listdir]. *)
Lemma scan_loop_raise rec path e :
  (∀ p ad e', rec p ad = Raise e' → e' = KeyError ∨ e' = OSError) →
  ∀ names acc,
    (∀ e', acc = Raise e' → e' = KeyError ∨ e' = OSError) →
    foldl (scan_child rec path) acc names = Raise e →
    e = KeyError ∨ e = OSError.
Proof.
  intros Hrec names.
  induction names as [|f names IH]; intros acc Hacc; simpl; [by auto|].
  apply IH. destruct acc as [[info ad]| |]; simpl; [|by auto|done].
  destruct (rec (os_path_join path f) ad) as [[s ad1]| |] eqn:Hr;
    simpl; [|by intros ? [= <-]; eauto|done].
  destruct (s !! f); [done|]. intros ? [= <-]. by left.
Qed.

Lemma get_dir_summary_raise fuel : ∀ path top_dir all_dirs e,
  get_dir_summary fs fuel path top_dir all_dirs = Raise e →
  e = KeyError ∨ e = OSError.
Proof.
  induction fuel as [|fuel IH]; intros path top ad e; [done|].
  walk_cases as info ad1 Hskip Hloop; [done|done| |done| |done].
  - intros [= <-]. by right.
  - intros [= <-]. eapply scan_loop_raise in Hloop; [done| |done].
    intros p ad0 e'. apply IH.
Qed.

(** *** Termination *)

Section total.
Context (U : gset string) (top_dir : string).
Hypothesis listed_dirs :
  ∀ p, os_listdir_OSError fs p = false →
       os_listdir fs p ≠ [] → os_path_realpath fs p ∈ U.
Hypothesis listed_names :
  ∀ p f, os_listdir_OSError fs p = false →
         f ∈ os_listdir fs p → has_sep f = false.
Hypothesis listed_entries :
  ∀ p f, os_listdir_OSError fs p = false →
         f ∈ os_listdir fs p →
         walkable fs top_dir (os_path_join p f) = true.

Lemma scan_loop_total rec path (bound : gset string) names :
  (∀ f ad, f ∈ names → bound ⊆ ad →
      ∃ info ad',
        rec (os_path_join path f) ad =
          Ok ({[os_path_basename (os_path_join path f) := info]}, ad')
        ∧ ad ⊆ ad') →
  ∀ dir_info all_dirs,
    (∀ f, f ∈ names → has_sep f = false) →
    bound ⊆ all_dirs →
    ∃ dir_info' all_dirs',
      foldl (scan_child rec path) (Ok (dir_info, all_dirs)) names =
        Ok (dir_info', all_dirs').
Proof.
  induction names as [|f names IH]; intros Hrec info ad Hnames Had; simpl.
  - eauto.
  - destruct (Hrec f ad) as (child & ad1 & -> & Had1); [by left|done|].
    simpl. rewrite basename_join by (apply Hnames; left).
    rewrite lookup_singleton_eq. apply IH.
    + intros g ad0 Hg. apply Hrec. by right.
    + intros g Hg. apply Hnames. by right.
    + by etrans.
Qed.

(** With more fuel than there are directories yet to visit the walk of a
    path it can take returns, and its summary has the base name of the path
    as its one key. *)
Lemma get_dir_summary_total fuel : ∀ path all_dirs,
  walkable fs top_dir path = true →
  (size (U ∖ all_dirs) < fuel)%nat →
  ∃ info all_dirs',
    get_dir_summary fs fuel path top_dir all_dirs =
      Ok ({[os_path_basename path := info]}, all_dirs')
    ∧ all_dirs ⊆ all_dirs'.
Proof.
  induction fuel as [|fuel IH]; intros path ad Hwalk Hfuel; [lia|].
  simpl. destruct (os_path_isfile fs path) eqn:Hfile; [by eauto|].
  destruct (_ || _) eqn:Hskip; [by eauto|].
  assert (os_listdir_OSError fs path = false) as Hlistable.
  { unfold walkable in Hwalk. rewrite Hfile in Hwalk.
    apply orb_false_elim in Hskip as [Hlink _].
    rewrite Hlink in Hwalk. by apply negb_true_iff. }
  rewrite Hlistable.
  apply orb_false_elim in Hskip as [_ Hnew].
  apply bool_decide_eq_false in Hnew.
  set (rp := os_path_realpath fs path) in *.
  destruct (decide (os_listdir fs path = [])) as [Hnil|Hlist].
  - assert (merge_sort String.le (os_listdir fs path) = []) as ->.
    { apply Permutation_nil_r.
      by rewrite merge_sort_Permutation, Hnil. }
    simpl. eexists _, _. split; [done|set_solver].
  - assert (size (U ∖ ({[rp]} ∪ ad)) < fuel)%nat as Hfuel'.
    { assert (U ∖ ({[rp]} ∪ ad) ⊂ U ∖ ad) as Hsub%subset_size; [|lia].
      pose proof (listed_dirs path Hlistable Hlist) as Hrp. split.
        - by apply difference_mono_l, union_subseteq_r.
        - intros Hsub.
          assert (rp ∈ U ∖ ({[rp]} ∪ ad)) as [_ Hn]%elem_of_difference.
          { apply Hsub. by apply elem_of_difference. }
          apply Hn, elem_of_union_l. by apply elem_of_singleton. }
    destruct (scan_loop_total
                (λ p ad0, get_dir_summary fs fuel p top_dir ad0) path
                ({[rp]} ∪ ad)
                (merge_sort String.le (os_listdir fs path)))
      with (dir_info := Entry 0 None None (Some ∅))
           (all_dirs := {[rp]} ∪ ad)
      as (info & ad1 & Hloop).
    + intros f ad0 Hf Had0. apply IH.
      * apply (listed_entries path); [done|].
        by rewrite <-(merge_sort_Permutation String.le).
      * eapply Nat.le_lt_trans; [|exact Hfuel'].
        by apply subseteq_size, difference_mono_l.
    + intros f Hf. apply (listed_names path); [done|].
      by rewrite <-(merge_sort_Permutation String.le).
    + done.
    + rewrite Hloop. simpl. eexists _, _. split; [done|].
      eapply (scan_loop_ind _ path
        (λ _ _ ad2, {[rp]} ∪ ad ⊆ ad2)) in Hloop; [set_solver| |done].
      intros f rest info0 ad0 s0 ad0' child Had Hrec _.
      apply get_dir_summary_mono in Hrec. by etrans.
Qed.
End total.

(** *** The summary of a walk is well-formed *)

Lemma is_snapshot_spec e :
  is_snapshot e = true ↔
  dir_sums e = true
  ∧ trimmed_size_bytes e = None ∧ collected_size_bytes e = None.
Proof.
  unfold is_snapshot.
  rewrite !andb_true_iff, !bool_decide_eq_true. tauto.
Qed.

Lemma sum_sizes_snapshot (d : summary) :
  map_Forall (λ _ e, is_snapshot e = true) d →
  sum_sizes get_trimmed d = sum_sizes original_size_bytes d
  ∧ sum_sizes get_collected d = sum_sizes original_size_bytes d.
Proof.
  intros Hd. split; apply sum_sizes_ext; intros k e Hk;
    apply Hd, is_snapshot_spec in Hk as (_ & HT & HC);
    unfold get_collected, get_trimmed; by rewrite ?HC, HT.
Qed.

Lemma get_dir_summary_snapshot :
  (∀ p, NoDup (os_listdir fs p)) →
  ∀ fuel path top_dir all_dirs s all_dirs',
    get_dir_summary fs fuel path top_dir all_dirs = Ok (s, all_dirs') →
    map_Forall (λ _ e, is_snapshot e = true) s.
Proof.
  intros Hnodup fuel.
  induction fuel as [|fuel IH]; intros path top ad s ad'; [done|].
  walk_cases as info ad1 Hskip Hloop;
    [intros [= <- _]; by apply map_Forall_singleton
    |intros [= <- _]; by apply map_Forall_singleton|done| |done|done].
  intros [= <- _]. apply map_Forall_singleton.
  eapply (scan_loop_ind _ path (λ rest info _,
    NoDup rest
    ∧ trimmed_size_bytes info = None
    ∧ collected_size_bytes info = None
    ∧ ∃ d, dirs info = Some d
           ∧ original_size_bytes info = sum_sizes original_size_bytes d
           ∧ map_Forall (λ _ e, is_snapshot e = true) d
           ∧ ∀ f, f ∈ rest → d !! f = None)) in Hloop.
  - destruct Hloop as (_ & HT & HC & d & Hd & HS & Hall & _).
    destruct info as [s t c d']. simplify_eq/=.
    apply is_snapshot_spec. split; [|done]. apply dir_sums_dir.
    destruct (sum_sizes_snapshot d Hall) as [-> ->]. simpl.
    split_and!; [done..|].
    intros k e Hk. by apply Hall, is_snapshot_spec in Hk as [? _].
  - intros f rest info0 ad0 s0 ad0' child
      (Hrest & HT & HC & d & Hd & HS & Hall & Hfresh) Hrec Hchild.
    apply NoDup_cons in Hrest as [Hf Hrest].
    split_and!; [done..|]. exists (<[f := child]> d).
    unfold add_child. rewrite Hd. simpl. split_and!; [done| | |].
    + rewrite sum_sizes_insert by (apply Hfresh; left). lia.
    + apply map_Forall_insert_2; [|done].
      by eapply (IH _ _ _ _ _ Hrec).
    + intros g Hg. rewrite lookup_insert_ne by (by intros ->).
      apply Hfresh. by right.
  - split_and!; [|done..|].
    + rewrite merge_sort_Permutation. apply Hnodup.
    + exists ∅. split_and!; [done|by rewrite sum_sizes_empty| |done].
      apply map_Forall_empty.
Qed.

(** *** A second walk *)

(** A walk that returned for a path that is not a file either skipped the
    path as a link into the top directory or left its real path in the set.
    So a later walk for that path, with a set that holds what the first
    walk left, skips it and returns an empty directory. *)
Lemma get_dir_summary_again
    fuel fuel' path top_dir all_dirs s all_dirs' later :
  os_path_isfile fs path = false →
  get_dir_summary fs fuel path top_dir all_dirs = Ok (s, all_dirs') →
  all_dirs' ⊆ later →
  get_dir_summary fs (S fuel') path top_dir later =
    Ok ({[ os_path_basename path := Entry 0 None None (Some ∅) ]}, later).
Proof.
  intros Hfile Hrun Hlater.
  assert ((os_path_islink fs path
           && String.prefix top_dir (os_path_realpath fs path))
          || bool_decide (os_path_realpath fs path ∈ later) = true) as Hskip.
  { destruct fuel as [|fuel]; [done|]. simpl in Hrun. rewrite Hfile in Hrun.
    destruct (os_path_islink fs path && _); [done|]. simpl in *.
    apply bool_decide_eq_true, Hlater.
    case_bool_decide as Hvisited; [by simplify_eq|].
    destruct (os_listdir_OSError fs path); [done|].
    destruct (foldl _ _ _) as [[info ad1]| |] eqn:Hloop; [|done..].
    injection Hrun as _ <-.
    eapply (scan_loop_ind _ path
      (λ _ _ ad2, {[os_path_realpath fs path]} ∪ all_dirs ⊆ ad2)) in Hloop;
      [| |done].
    - apply Hloop, elem_of_union_l. by apply elem_of_singleton.
    - intros f rest info0 ad0 s0 ad0' child Had Hrec _.
      apply get_dir_summary_mono in Hrec. by etrans. }
  simpl. by rewrite Hfile, Hskip.
Qed.

End builder_facts.

(** ** Well-formedness, node by node *)

(** [well_formed] says that the three sums hold at every directory of the
    tree. *)
Lemma well_formed_nodes (m : summary) :
  well_formed m = true ↔
  ∀ p e d,
    lookup_path p m = Some e →
    dirs e = Some d →
    original_size_bytes e = sum_sizes original_size_bytes d
    ∧ get_trimmed e = sum_sizes get_trimmed d
    ∧ get_collected e = sum_sizes get_collected d.
Proof.
  rewrite well_formed_Forall. split.
  - intros Hm p. revert m Hm.
    induction p as [|k p IH]; intros m Hm e d He Hd; [done|].
    destruct (decide (p = [])) as [->|Hp].
    + simpl in He. apply dir_sums_sums; [done|]. by eapply Hm.
    + rewrite lookup_path_cons in He by done.
      destruct (m !! k) as [[s t c [d1|]]|] eqn:Hk; simplify_eq/=.
      eapply (IH d1); [|done..].
      eapply dir_sums_children, Hm, Hk.
  - intros Hnodes.
    assert (∀ e,
      (∀ d, dirs e = Some d →
         (original_size_bytes e = sum_sizes original_size_bytes d
          ∧ get_trimmed e = sum_sizes get_trimmed d
          ∧ get_collected e = sum_sizes get_collected d)
         ∧ ∀ p e' d', lookup_path p d = Some e' → dirs e' = Some d' →
             original_size_bytes e' = sum_sizes original_size_bytes d'
             ∧ get_trimmed e' = sum_sizes get_trimmed d'
             ∧ get_collected e' = sum_sizes get_collected d') →
      dir_sums e = true) as Hentry.
    { intros e.
      induction e as [s t c|s t c d IH] using entry_ind'; intros He; [done|].
      destruct (He d eq_refl) as [(HS & HT & HC) Hbelow].
      apply dir_sums_dir. split_and!; [done..|].
      intros k e1 Hk. apply (IH k e1 Hk). intros d1 Hd1. split.
      - by apply (Hbelow [k]).
      - intros p e' d' He' Hd'. apply (Hbelow (k :: p)); [|done].
        destruct p as [|k' p]; [done|].
        rewrite lookup_path_cons by done. rewrite Hk. simpl.
        by rewrite Hd1. }
    intros k e Hk. apply Hentry. intros d Hd. split.
    + by apply (Hnodes [k]).
    + intros p e' d' He' Hd'. apply (Hnodes (k :: p)); [|done].
      destruct p as [|k' p]; [done|].
      rewrite lookup_path_cons by done. rewrite Hk. simpl. by rewrite Hd.
Qed.

(** ** The test of [merge_summaries] *)

(** [testMergeSummaries] of [utils_unittest.py], with 10 for [SIZE]: the
    two summary files, the summary of the directory the test sets up, the
    merged summary the test expects and the 9 * [SIZE] collected bytes. *)
Example testMergeSummaries :
  client_collected (merge_all [SUMMARY_1; SUMMARY_2]) = Ok (9 * SIZE)
  ∧ _delete_missing_entries
      (_merge (merge_all [SUMMARY_1; SUMMARY_2]) test_dir_summary true)
      test_dir_summary = Ok EXPECTED_MERGED_SUMMARY.
Proof. split; vm_compute; reflexivity. Qed.

(** The collected size of the root is read where a single summary file, as
    the snapshot builder writes it, has no such key. *)
Example one_summary_file_KeyError :
  client_collected (merge_all [ex_summary_1]) = Raise KeyError.
Proof. vm_compute. reflexivity. Qed.

(** * The claims *)

(** C1, as the program has it.  The first component of what
    [merge_summaries] returns is the collected size of the root after the
    summary files alone are merged, before the final merge with the summary
    of the live directory and before the deletion pass, and it is 0 when
    there is no summary file.  The second component is that merged tree
    after the final merge and the deletion pass. *)
Theorem client_collected_bytes_is_read_before_final_merge
    fs fuel all_summaries path all_dirs total merged all_dirs' :
  merge_summaries fs fuel all_summaries path all_dirs =
    Ok (total, merged, all_dirs') →
  (merge_all all_summaries = ∅ ∧ total = 0
   ∨ ∃ root, merge_all all_summaries !! ROOT_DIR = Some root
             ∧ collected_size_bytes root = Some total)
  ∧ (all_summaries = [] → total = 0)
  ∧ ∃ last_summary,
      get_dir_summary fs fuel (with_sep path) (with_sep path) all_dirs =
        Ok (last_summary, all_dirs')
      ∧ _delete_missing_entries
          (_merge (merge_all all_summaries) last_summary true) last_summary =
          Ok merged.
Proof.
  unfold merge_summaries, client_collected. intros Hrun.
  destruct (bool_decide (merge_all all_summaries = ∅)) eqn:Hempty.
  - apply bool_decide_eq_true in Hempty. simpl in Hrun.
    destruct (get_dir_summary _ _ _ _ _) as [[last ad]| |]; [|done..].
    simpl in Hrun.
    destruct (_delete_missing_entries _ _) as [res| |] eqn:Hres; [|done..].
    simplify_eq/=. split_and!; [by left|done|eauto].
  - apply bool_decide_eq_false in Hempty.
    destruct (merge_all all_summaries !! ROOT_DIR) as [root|] eqn:Hroot;
      [|done].
    destruct (collected_size_bytes root) as [c|] eqn:Hc; [|done].
    simpl in Hrun.
    destruct (get_dir_summary _ _ _ _ _) as [[last ad]| |]; [|done..].
    simpl in Hrun.
    destruct (_delete_missing_entries _ _) as [res| |] eqn:Hres; [|done..].
    simplify_eq/=. split_and!; [right; eauto| |eauto].
    intros ->. by destruct Hempty.
Qed.

Lemma client_collected_bytes_is_read_before_final_merge_witness :
  (merge_all [ex_summary_1; ex_summary_2] = ∅ ∧ 30 = 0
   ∨ ∃ root, merge_all [ex_summary_1; ex_summary_2] !! ROOT_DIR = Some root
             ∧ collected_size_bytes root = Some 30)
  ∧ ∃ last_summary,
      get_dir_summary (ex_fs 10 25 5) 2 "/r/" "/r/" ∅ =
        Ok (last_summary, {[ "/r" ]})
      ∧ _delete_missing_entries
          (_merge (merge_all [ex_summary_1; ex_summary_2]) last_summary true)
          last_summary = Ok ex_merged.
Proof.
  destruct (client_collected_bytes_is_read_before_final_merge
              (ex_fs 10 25 5) 2 [ex_summary_1; ex_summary_2] "/r" ∅
              30 ex_merged {[ "/r" ]}) as (Htotal & _ & Hmerged).
  - vm_compute. reflexivity.
  - split; [exact Htotal|exact Hmerged].
Defined.

(** C1, as the claim has it, fails: for the summary files [{a:10}] and
    [{a:10, b:20}] and the live directory [{a:10, b:25, c:5}] the total is
    30; the collected size of the root of the returned tree is 60, and the
    total is not 40 either. *)
Lemma total_is_not_final_root_collected_size :
  merge_summaries (ex_fs 10 25 5) 2 [ex_summary_1; ex_summary_2] "/r" ∅ =
    Ok (30, ex_merged, {[ "/r" ]})
  ∧ (ex_merged !! ROOT_DIR) ≫= collected_size_bytes = Some 60
  ∧ 30 ≠ 60
  ∧ 30 ≠ 40.
Proof.
  split_and!; [vm_compute; reflexivity|reflexivity|lia|lia].
Qed.

(** C2.  When a name is a file in both trees, the two original sizes differ
    and the merge is not a final one with equal trimmed sizes, the merged
    file has the old collected size plus the new collected size (each with
    the defaults trimmed, then original) as its collected size, and the
    trimmed size (by default the original size) and the original size of the
    new side. *)
Theorem overwrite_accumulates p summary_old summary_new is_final o n :
  lookup_path p summary_old = Some o →
  lookup_path p summary_new = Some n →
  dirs o = None →
  dirs n = None →
  original_size_bytes o ≠ original_size_bytes n →
  ¬ (is_final = true ∧ get_trimmed o = get_trimmed n) →
  lookup_path p (_merge summary_old summary_new is_final) =
    Some (Entry (original_size_bytes n)
                (Some (get_trimmed n))
                (Some (get_collected o + get_collected n))
                None).
Proof.
  intros Ho Hn Hdo Hdn Hsize Hfinal.
  rewrite (lookup_path_merge _ _ _ _ o n) by done.
  rewrite merge_name_file, Hdo by done. unfold merge_file.
  rewrite bool_decide_eq_true_2 by congruence.
  destruct is_final; simpl.
  - rewrite bool_decide_eq_false_2 by naive_solver. simpl.
    rewrite Hdo. unfold _update_sizes. simpl. do 3 f_equal. lia.
  - rewrite Hdo. unfold _update_sizes. simpl. do 3 f_equal. lia.
Qed.

(** The old file [f] with collected size 100, merged with [f] of original
    size 50, has collected size 150. *)
Lemma overwrite_accumulates_witness :
  lookup_path [""; "f"] (_merge ex_old_f ex_new_f false) =
    Some (Entry 50 (Some 50) (Some 150) None).
Proof.
  apply (overwrite_accumulates [""; "f"] ex_old_f ex_new_f false
           (Entry 100 (Some 100) (Some 100) None) (file 50)).
  - reflexivity.
  - reflexivity.
  - reflexivity.
  - reflexivity.
  - simpl. lia.
  - intros [H _]. discriminate H.
Defined.

(** C3.  The set of visited directories of the walk is the default value of
    a parameter: one set for all calls of [build_summary_json] in a
    process.  The first call for the directory [/r], which holds the file
    [a] of 10 bytes, leaves the real path of [/r] in the set; the second
    call for the unchanged directory finds it there and returns an empty
    root.  The two trees differ. *)
Theorem second_build_returns_empty_root :
  build_summary_json (ex_fs 10 0 0) 2 "/r" ∅ =
    Ok (tree (dir 10 [("a", file 10)]), {[ "/r" ]})
  ∧ build_summary_json (ex_fs 10 0 0) 2 "/r" {[ "/r" ]} =
      Ok (tree (dir 0 []), {[ "/r" ]})
  ∧ tree (dir 10 [("a", file 10)]) ≠ tree (dir 0 []).
Proof.
  split_and!.
  - vm_compute. reflexivity.
  - vm_compute. reflexivity.
  - intros Heq. apply (f_equal (λ m : summary, m !! ROOT_DIR)) in Heq.
    unfold tree in Heq. rewrite !lookup_singleton_eq in Heq. discriminate Heq.
Qed.

(** The same for every file system and every directory: once
    [build_summary_json] has returned for a path, a later call for that
    path (the set has only grown in between) returns the empty root. *)
Lemma build_summary_json_again
    fs fuel fuel' path all_dirs s all_dirs' later :
  os_path_isfile fs (with_sep path) = false →
  build_summary_json fs fuel path all_dirs = Ok (s, all_dirs') →
  all_dirs' ⊆ later →
  build_summary_json fs (S fuel') path later = Ok (tree (dir 0 []), later).
Proof.
  unfold build_summary_json. intros Hfile.
  destruct (os_path_exists fs path); [|done].
  destruct (os_path_isdir fs path); [|done]. cbn [negb].
  intros Hrun Hlater.
  rewrite (get_dir_summary_again _ _ _ _ _ _ _ _ _ Hfile Hrun Hlater).
  by rewrite basename_with_sep.
Qed.

(** C4.  In a final merge, a name that is a file in both trees with
    different original sizes but equal trimmed sizes (each by default the
    original size) keeps its old entry: no size changes, nothing is added to
    the collected size. *)
Theorem final_equal_trimmed_is_skipped p summary_old summary_new o n :
  lookup_path p summary_old = Some o →
  lookup_path p summary_new = Some n →
  dirs o = None →
  dirs n = None →
  original_size_bytes o ≠ original_size_bytes n →
  get_trimmed o = get_trimmed n →
  lookup_path p (_merge summary_old summary_new true) = Some o.
Proof.
  intros Ho Hn Hdo Hdn Hsize Htrimmed.
  rewrite (lookup_path_merge _ _ _ _ o n) by done.
  rewrite merge_name_file, Hdo by done. unfold merge_file.
  rewrite bool_decide_eq_true_2 by congruence.
  by rewrite bool_decide_eq_true_2 by congruence.
Qed.

Lemma final_equal_trimmed_is_skipped_witness :
  lookup_path [""; "log"] (_merge ex_old_trimmed ex_new_trimmed true) =
    Some (Entry 2000 (Some 1000) (Some 1000) None).
Proof.
  apply (final_equal_trimmed_is_skipped [""; "log"]
           ex_old_trimmed ex_new_trimmed
           (Entry 2000 (Some 1000) (Some 1000) None) (file 1000)).
  - reflexivity.
  - reflexivity.
  - reflexivity.
  - reflexivity.
  - simpl. lia.
  - reflexivity.
Defined.

(** C5.  A name that is a file in the old tree and a directory in the new
    one becomes the empty directory with the three sizes 0, into which the
    new children are merged; after the merge it is a directory whose
    children are the new children (each with its sizes recomputed) and whose
    sizes are the sums over them: nothing of the old file is left. *)
Theorem directory_over_file p summary_old summary_new is_final o n nd :
  lookup_path p summary_old = Some o →
  lookup_path p summary_new = Some n →
  dirs o = None →
  dirs n = Some nd →
  force_dir o = Entry 0 (Some 0) (Some 0) (Some ∅)
  ∧ ∃ merged,
      merged = _merge (default ∅ (dirs (force_dir o))) nd is_final
      ∧ merged = _update_sizes <$> nd
      ∧ lookup_path p (_merge summary_old summary_new is_final) =
          Some (Entry (sum_sizes original_size_bytes merged)
                      (Some (sum_sizes get_trimmed merged))
                      (Some (sum_sizes get_collected merged))
                      (Some merged)).
Proof.
  intros Ho Hn Hdo Hdn.
  assert (force_dir o = Entry 0 (Some 0) (Some 0) (Some ∅)) as Hforce.
  { unfold force_dir. by rewrite Hdo. }
  split; [done|]. eexists. split; [done|]. split.
  - rewrite Hforce. apply merge_empty.
  - rewrite (lookup_path_merge _ _ _ _ o n) by done.
    by rewrite (merge_name_dir _ _ _ nd) by done.
Qed.

(** The old file [x] of size 10 and collected size 10, merged with the
    directory [x] that holds the file [y] of size 5, is a directory of
    collected size 5. *)
Lemma directory_over_file_witness :
  lookup_path [""; "x"] (_merge ex_old_x ex_new_x false) =
    Some (Entry 5 (Some 5) (Some 5) (Some {[ "y" := file 5 ]})).
Proof.
  pose proof (directory_over_file [""; "x"] ex_old_x ex_new_x false
                (Entry 10 None (Some 10) None)
                (dir 5 [("y", file 5)]) {[ "y" := file 5 ]}
                eq_refl eq_refl eq_refl eq_refl)
    as (_ & merged & _ & Hmerged & ->).
  rewrite Hmerged, map_fmap_singleton.
  unfold _update_sizes, file. cbn [dirs].
  by rewrite !sum_sizes_singleton.
Defined.

(** C6.  A name that is a directory in the old tree and a file in the new
    one is skipped: the old entry, with its sizes and its whole subtree, is
    what the merged tree holds. *)
Theorem file_over_directory p summary_old summary_new is_final o n :
  lookup_path p summary_old = Some o →
  lookup_path p summary_new = Some n →
  is_Some (dirs o) →
  dirs n = None →
  lookup_path p (_merge summary_old summary_new is_final) = Some o.
Proof.
  intros Ho Hn [od Hdo] Hdn.
  rewrite (lookup_path_merge _ _ _ _ o n) by done.
  by rewrite merge_name_file, Hdo by done.
Qed.

Lemma file_over_directory_witness :
  lookup_path [""; "d"] (_merge ex_old_d ex_new_d false) =
    Some (dir 7 [("a", file 3); ("b", file 4)]).
Proof.
  apply (file_over_directory [""; "d"] ex_old_d ex_new_d false
           (dir 7 [("a", file 3); ("b", file 4)]) (file 100)).
  - reflexivity.
  - reflexivity.
  - by eexists.
  - reflexivity.
Defined.



(** C8.  The directory-sum invariant (at every directory the original size
    is the sum of the original sizes of the children, and the trimmed and
    collected sizes are the sums of those of the children, an absent size
    counting as its default) holds for the summary of a directory walk, is
    kept by [_merge] with either value of [is_final], and holds for what
    [_delete_missing_entries] returns. *)
Theorem directory_sums_preserved :
  (∀ fs fuel path top_dir all_dirs s all_dirs',
      (∀ p, NoDup (os_listdir fs p)) →
      get_dir_summary fs fuel path top_dir all_dirs = Ok (s, all_dirs') →
      well_formed s = true)
  ∧ (∀ summary_old summary_new is_final,
      well_formed summary_old = true →
      well_formed summary_new = true →
      well_formed (_merge summary_old summary_new is_final) = true)
  ∧ (∀ summary_old summary_new res,
      well_formed summary_old = true →
      _delete_missing_entries summary_old summary_new = Ok res →
      well_formed res = true).
Proof.
  split_and!.
  - intros fs fuel path top ad s ad' Hnodup Hrun.
    apply well_formed_Forall. intros k e Hk.
    eapply get_dir_summary_snapshot in Hrun; [|done].
    by apply Hrun, is_snapshot_spec in Hk as [? _].
  - apply merge_well_formed.
  - intros so sn res _. apply delete_missing_entries_well_formed.
Qed.

Lemma ex_fs_listdir_NoDup p : NoDup (os_listdir (ex_fs 10 25 5) p).
Proof.
  simpl. destruct (is_one_of p _); [|constructor].
  apply (bool_decide_eq_true_1 (NoDup _)). reflexivity.
Qed.

Lemma directory_sums_preserved_witness :
  well_formed ex_last = true
  ∧ well_formed (_merge ex_summary_2 ex_last true) = true
  ∧ well_formed ex_merged = true.
Proof.
  destruct directory_sums_preserved as (Hbuild & Hmerge & Hdelete).
  split_and!.
  - apply (Hbuild (ex_fs 10 25 5) 2%nat "/r/" "/r/" ∅ ex_last {["/r"]}).
    + apply ex_fs_listdir_NoDup.
    + vm_compute. reflexivity.
  - apply Hmerge; reflexivity.
  - apply (Hdelete (_merge ex_summary_2 ex_last true) ex_last ex_merged).
    + reflexivity.
    + vm_compute. reflexivity.
Defined.

(** C9.  Merging a well-formed tree into itself, not as a final merge,
    leaves the three sizes of every node as they were (an absent optional
    size counts as its default). *)
Theorem merge_self_idempotent (T : summary) :
  well_formed T = true →
  sizes <$> _merge T T false = sizes <$> T.
Proof.
  rewrite well_formed_Forall. intros HT.
  rewrite merge_self, <-map_fmap_compose. apply map_fmap_ext.
  intros k e Hk. apply sizes_update_all. by eapply HT.
Qed.

Lemma merge_self_idempotent_witness :
  sizes <$> _merge ex_old_d ex_old_d false = sizes <$> ex_old_d.
Proof. apply merge_self_idempotent. reflexivity. Defined.


Lemma ex_fs_listed p :
  os_listdir_OSError (ex_fs 10 25 5) p = false →
  p = "/r" ∨ p = "/r/".
Proof.
  simpl. unfold is_one_of. case_bool_decide as Hp; [intros _|done].
  apply elem_of_cons in Hp as [->|Hp]; [by left|].
  apply list_elem_of_singleton in Hp as ->. by right.
Qed.

Lemma ex_fs_listed_dirs p :
  os_listdir_OSError (ex_fs 10 25 5) p = false →
  os_listdir (ex_fs 10 25 5) p ≠ [] →
  os_path_realpath (ex_fs 10 25 5) p ∈ ({[ "/r" ]} : gset string).
Proof.
  intros [-> | ->]%ex_fs_listed _; by apply elem_of_singleton.
Qed.

Lemma ex_fs_listed_names p f :
  os_listdir_OSError (ex_fs 10 25 5) p = false →
  f ∈ os_listdir (ex_fs 10 25 5) p → has_sep f = false.
Proof.
  intros _. simpl. destruct (is_one_of p _); [|by intros ?%elem_of_nil].
  intros Hf. repeat (apply elem_of_cons in Hf as [->|Hf]; [done|]).
  by apply elem_of_nil in Hf.
Qed.

Lemma ex_fs_listed_entries p f :
  os_listdir_OSError (ex_fs 10 25 5) p = false →
  f ∈ os_listdir (ex_fs 10 25 5) p →
  walkable (ex_fs 10 25 5) (with_sep "/r") (os_path_join p f) = true.
Proof.
  intros [-> | ->]%ex_fs_listed Hf;
    repeat (apply elem_of_cons in Hf as [->|Hf]; [done|]);
    by apply elem_of_nil in Hf.
Qed.



(** * Further properties of the merge engine *)

Lemma merge_name_None is_final n o :
  merge_name is_final n o = None → is_Some o.
Proof. destruct o; [by eauto|]. by rewrite merge_name_new. Qed.

Lemma merge_file_dirs is_final n o e :
  dirs o = None → merge_file is_final n o = Some e → dirs e = None.
Proof.
  unfold merge_file, _update_sizes. intros Ho.
  repeat case_match; intros [= <-]; simplify_eq/=; done.
Qed.

Lemma lookup_path_empty p : lookup_path p (∅ : summary) = None.
Proof. destruct p as [|k [|k' p]]; [done|apply lookup_empty|]. simpl. by rewrite lookup_empty. Qed.

Lemma update_sizes_dirs e : dirs (_update_sizes e) = dirs e.
Proof. by destruct e as [s t c [d|]]. Qed.

(** X1.  [_merge] neither drops a node nor invents one: a path of names
    leads to an entry of the merged summary exactly when it leads to an
    entry of the old summary or of the new one. *)
Theorem merge_keeps_paths p : ∀ summary_old summary_new is_final,
  is_Some (lookup_path p (_merge summary_old summary_new is_final)) ↔
  is_Some (lookup_path p summary_old) ∨ is_Some (lookup_path p summary_new).
Proof.
  pose proof (@is_Some_None entry) as HNone.
  induction p as [|k p IH]; intros so sn is_final; [simpl; tauto|].
  destruct (decide (p = [])) as [->|Hp].
  - simpl. rewrite lookup_merge.
    destruct (sn !! k) as [n|] eqn:Hn; [|tauto].
    destruct (merge_name is_final n (so !! k)) as [e|] eqn:He; simpl.
    + split; eauto.
    + apply merge_name_None in He. tauto.
  - rewrite !lookup_path_cons by done. rewrite lookup_merge.
    destruct (sn !! k) as [n|] eqn:Hn; simpl; [|tauto].
    destruct (so !! k) as [o|] eqn:Ho; simpl.
    2:{ rewrite merge_name_new. simpl. rewrite update_sizes_dirs. tauto. }
    destruct (dirs n) as [nd|] eqn:Hnd; simpl.
    + rewrite (merge_name_dir _ _ _ nd) by done. simpl. rewrite IH.
      unfold force_dir. destruct (dirs o) as [od|] eqn:Hod; simpl.
      * rewrite Hod. simpl. tauto.
      * rewrite lookup_path_empty. tauto.
    + rewrite merge_name_file by done.
      destruct (dirs o) as [od|] eqn:Hod; simpl.
      * rewrite Hod. simpl. tauto.
      * destruct (merge_file is_final n o) as [e|] eqn:He; simpl.
        -- rewrite (merge_file_dirs _ _ _ _ Hod He). simpl. tauto.
        -- rewrite Hod. simpl. tauto.
Qed.

Lemma update_sizes_force e :
  force_dir (_update_sizes e) =
    match dirs e with
    | Some _ => _update_sizes e
    | None => Entry 0 (Some 0) (Some 0) (Some ∅)
    end.
Proof. by destruct e as [s t c [d|]]. Qed.

(** The three sizes of an entry are those of its image under [sizes]. *)
Lemma sum_sizes_sizes (d d' : summary) :
  sizes <$> d = sizes <$> d' →
  sum_sizes original_size_bytes d = sum_sizes original_size_bytes d'
  ∧ sum_sizes get_trimmed d = sum_sizes get_trimmed d'
  ∧ sum_sizes get_collected d = sum_sizes get_collected d'.
Proof.
  intros Hd.
  assert (∀ f, (∀ e, f (sizes e) = f e) →
               sum_sizes f d = sum_sizes f d') as Hsum.
  { intros f Hf.
    rewrite <-(sum_sizes_ext (f ∘ sizes) f d) by (intros; apply Hf).
    rewrite <-(sum_sizes_ext (f ∘ sizes) f d') by (intros; apply Hf).
    by rewrite <-!sum_sizes_fmap, Hd. }
  split_and!; apply Hsum; by intros [s t c [x|]].
Qed.

Lemma sizes_update_sizes_set_dirs e e' (d d' : summary) :
  sizes <$> d = sizes <$> d' →
  sizes (_update_sizes (set_dirs e d)) = sizes (_update_sizes (set_dirs e' d')).
Proof.
  intros Hd. destruct (sum_sizes_sizes d d' Hd) as (HS & HT & HC).
  unfold _update_sizes, set_dirs. cbn. by rewrite HS, HT, HC, Hd.
Qed.

(** What the file branch stored is what it stores when it runs again. *)
Lemma merge_file_stable is_final n o e :
  dirs o = None →
  merge_file is_final n o = Some e →
  merge_file is_final n e = Some e.
Proof.
  unfold merge_file, _update_sizes. intros Ho. rewrite Ho.
  case_bool_decide as Hsize.
  - destruct (is_final && _); [done|]. intros [= <-]. simpl.
    by rewrite bool_decide_eq_false_2 by (by intros []).
  - intros [= <-].
    rewrite bool_decide_eq_false_2 by (intros Hne; by apply Hne).
    by rewrite Ho.
Qed.

(** Merging a summary a second time, name by name. *)
Lemma remerge_lookup summary_old summary_new is_final :
  map_Forall (λ _ n, ∀ o,
    sizes <$> from_option Some
                (from_option Some o (merge_name is_final n o))
                (merge_name is_final n
                   (from_option Some o (merge_name is_final n o))) =
    sizes <$> from_option Some o (merge_name is_final n o)) summary_new →
  sizes <$> _merge (_merge summary_old summary_new is_final)
                   summary_new is_final =
  sizes <$> _merge summary_old summary_new is_final.
Proof.
  intros Hnew. apply map_eq. intros k.
  rewrite !lookup_fmap, (lookup_merge (_merge _ _ _)), lookup_merge.
  destruct (summary_new !! k) as [n|] eqn:Hn; [|done].
  apply (Hnew k n Hn).
Qed.

Lemma remerge_name is_final n :
  dir_sums n = true →
  ∀ o,
    sizes <$> from_option Some
                (from_option Some o (merge_name is_final n o))
                (merge_name is_final n
                   (from_option Some o (merge_name is_final n o))) =
    sizes <$> from_option Some o (merge_name is_final n o).
Proof.
  induction n as [s t c|s t c nd IH] using entry_ind'; intros Hn o.
  - destruct o as [o|].
    + rewrite merge_name_file by done.
      destruct (dirs o) as [od|] eqn:Hod; cbn [from_option].
      { by rewrite merge_name_file, Hod by done. }
      destruct (merge_file is_final _ o) as [e|] eqn:He;
        cbn [from_option].
      * rewrite merge_name_file, (merge_file_dirs _ _ _ _ Hod He) by done.
        by rewrite (merge_file_stable _ _ _ _ Hod He).
      * by rewrite merge_name_file, Hod, He by done.
    + rewrite merge_name_new. cbn [from_option _update_sizes dirs].
      by rewrite merge_name_self.
  - assert (∀ m, sizes <$> _merge (_merge m nd is_final) nd is_final =
                 sizes <$> _merge m nd is_final) as Hchildren.
    { intros m. apply remerge_lookup. intros k n' Hn'.
      apply (IH k n' Hn'). by eapply dir_sums_children. }
    destruct o as [o|].
    + rewrite (merge_name_dir _ _ _ nd) by done. cbn [from_option].
      rewrite (merge_name_dir _ _ _ nd) by done. cbn [from_option].
      cbn [fmap option_fmap option_map]. f_equal.
      rewrite update_sizes_force. cbn [set_dirs dirs default].
      rewrite update_sizes_dirs. cbn [set_dirs dirs default].
      apply sizes_update_sizes_set_dirs, Hchildren.
    + rewrite merge_name_new. cbn [from_option].
      rewrite (merge_name_dir _ _ _ nd) by done. cbn [from_option].
      cbn [fmap option_fmap option_map]. f_equal.
      rewrite update_sizes_force. cbn [dirs].
      rewrite update_sizes_dirs. cbn [dirs default].
      rewrite merge_self.
      apply (sizes_update_sizes_set_dirs _ (Entry s t c (Some nd))).
      rewrite <-map_fmap_compose. apply map_fmap_ext. intros k n' Hn'.
      apply sizes_update_all. by eapply dir_sums_children.
Qed.

(** X2.  Merging the same well-formed summary a second time changes no
    size: a snapshot that is sent again adds nothing to the collected
    sizes. *)
Theorem merge_again_adds_nothing summary_old summary_new is_final :
  well_formed summary_new = true →
  sizes <$> _merge (_merge summary_old summary_new is_final)
                   summary_new is_final =
  sizes <$> _merge summary_old summary_new is_final.
Proof.
  rewrite well_formed_Forall. intros Hnew. apply remerge_lookup.
  intros k n Hn. apply remerge_name. by eapply Hnew.
Qed.

Lemma merge_again_adds_nothing_witness :
  sizes <$> _merge (_merge SUMMARY_1 ex_last false) ex_last false =
  sizes <$> _merge SUMMARY_1 ex_last false.
Proof. apply merge_again_adds_nothing. reflexivity. Defined.

(** [_merge] of summaries without a common name: the new entries are
    added, each with its sizes recomputed. *)
Lemma merge_disjoint summary_old summary_new is_final :
  summary_old ##ₘ summary_new →
  _merge summary_old summary_new is_final =
    summary_old ∪ (_update_sizes <$> summary_new).
Proof.
  intros Hdisj. apply map_eq. intros k. rewrite lookup_merge.
  destruct (summary_new !! k) as [n|] eqn:Hn.
  - assert (summary_old !! k = None) as Ho.
    { destruct (summary_old !! k) eqn:Ho; [|done].
      by destruct (proj1 (map_disjoint_spec summary_old summary_new)
                     Hdisj k _ _ Ho Hn). }
    rewrite Ho, merge_name_new. simpl. symmetry.
    apply lookup_union_Some_raw. right. by rewrite lookup_fmap, Hn.
  - destruct (summary_old !! k) as [o|] eqn:Ho; symmetry.
    + apply lookup_union_Some_raw. by left.
    + apply lookup_union_None. by rewrite lookup_fmap, Hn.
Qed.

Lemma sum_sizes_union f (m1 m2 : summary) :
  m1 ##ₘ m2 → sum_sizes f (m1 ∪ m2) = sum_sizes f m1 + sum_sizes f m2.
Proof.
  induction m1 as [|k e m1 Hk IH] using map_ind; intros Hdisj.
  - rewrite (left_id_L ∅ (∪)), sum_sizes_empty. lia.
  - apply map_disjoint_insert_l in Hdisj as [Hk2 Hdisj].
    rewrite <-insert_union_l, !sum_sizes_insert, IH; [lia|done..|].
    apply lookup_union_None. done.
Qed.

Lemma sizes_update_sizes e :
  dir_sums e = true → sizes (_update_sizes e) = sizes e.
Proof.
  destruct e as [s t c [d|]]; [|done].
  intros (HS & HT & HC & _)%dir_sums_dir.
  unfold _update_sizes. cbn [dirs sizes original_size_bytes].
  rewrite !get_trimmed_Entry, !get_collected_Entry. simpl.
  by rewrite <-HS, <-HT, <-HC.
Qed.

(** X3.  Two well-formed directories under the same name, without a common
    name among their children: the merged directory has the children of
    both, and each of its three sizes is the sum of the sizes of the two
    directories.  For a new directory as the snapshot builder writes it the
    collected size grows by the original size of the new directory. *)
Theorem merge_disjoint_adds
    summary_old summary_new is_final k P N od nd :
  summary_old !! k = Some P →
  summary_new !! k = Some N →
  dirs P = Some od →
  dirs N = Some nd →
  od ##ₘ nd →
  dir_sums P = true →
  dir_sums N = true →
  ∃ e,
    _merge summary_old summary_new is_final !! k = Some e
    ∧ dirs e = Some (od ∪ (_update_sizes <$> nd))
    ∧ original_size_bytes e = original_size_bytes P + original_size_bytes N
    ∧ trimmed_size_bytes e = Some (get_trimmed P + get_trimmed N)
    ∧ collected_size_bytes e = Some (get_collected P + get_collected N)
    ∧ (is_snapshot N = true →
       collected_size_bytes e =
         Some (get_collected P + original_size_bytes N)).
Proof.
  intros HP HN Hod Hnd Hdisj HPs HNs.
  assert (od ##ₘ _update_sizes <$> nd) as Hdisj'.
  { apply map_disjoint_alt. intros i. rewrite lookup_fmap.
    destruct (proj1 (map_disjoint_alt od nd) Hdisj i) as [->| ->]; auto. }
  assert (∀ f, (∀ e, f (sizes e) = f e) →
               sum_sizes f (_update_sizes <$> nd) = sum_sizes f nd) as Hsum.
  { intros f Hf. rewrite sum_sizes_fmap. apply sum_sizes_ext.
    intros k' n' Hn'. simpl. rewrite <-Hf, sizes_update_sizes, Hf; [done|].
    destruct N as [s t c d]. simpl in Hnd. subst d.
    by eapply dir_sums_children. }
  destruct (dir_sums_sums _ _ Hod HPs) as (HPS & HPT & HPC).
  destruct (dir_sums_sums _ _ Hnd HNs) as (HNS & HNT & HNC).
  assert (collected_size_bytes
            (_update_sizes (set_dirs P (od ∪ (_update_sizes <$> nd)))) =
          Some (get_collected P + get_collected N)) as HC.
  { unfold _update_sizes, set_dirs. cbn [dirs collected_size_bytes].
    rewrite sum_sizes_union, Hsum, HPC, HNC by
      (done || by intros [? ? ? [?|]]). done. }
  exists (_update_sizes (set_dirs P (od ∪ (_update_sizes <$> nd)))).
  split.
  { rewrite lookup_merge, HN, HP, (merge_name_dir _ _ _ nd) by done.
    unfold force_dir. rewrite Hod. cbn [from_option default].
    rewrite Hod. cbn [default]. by rewrite merge_disjoint. }
  split_and!.
  - by rewrite update_sizes_dirs.
  - unfold _update_sizes, set_dirs. cbn [dirs original_size_bytes].
    rewrite sum_sizes_union, Hsum, HPS, HNS by
      (done || by intros [? ? ? [?|]]). done.
  - unfold _update_sizes, set_dirs. cbn [dirs trimmed_size_bytes].
    rewrite sum_sizes_union, Hsum, HPT, HNT by
      (done || by intros [? ? ? [?|]]). done.
  - exact HC.
  - intros (_ & HT & HCn)%is_snapshot_spec. rewrite HC.
    unfold get_collected at 2, get_trimmed. by rewrite HCn, HT.
Qed.

Lemma merge_disjoint_adds_witness :
  ∃ e,
    _merge ex_summary_1 ex_only_c false !! ROOT_DIR = Some e
    ∧ collected_size_bytes e = Some (10 + 5).
Proof.
  destruct (merge_disjoint_adds ex_summary_1 ex_only_c false ROOT_DIR
              (dir 10 [("a", file 10)]) (dir 5 [("c", file 5)])
              {[ "a" := file 10 ]} {[ "c" := file 5 ]})
    as (e & He & _ & _ & _ & _ & HC).
  - reflexivity.
  - reflexivity.
  - reflexivity.
  - reflexivity.
  - by apply map_disjoint_singleton_l, lookup_singleton_ne.
  - reflexivity.
  - reflexivity.
  - exists e. split; [exact He|]. by apply HC.
Defined.

(** * Sizes in order: 0 ≤ trimmed ≤ collected *)

Lemma all_nodes_dir P s t c d :
  all_nodes P (Entry s t c (Some d)) = true ↔
  P (Entry s t c (Some d)) = true
  ∧ map_Forall (λ _ e, all_nodes P e = true) d.
Proof.
  cbn [all_nodes dirs]. by rewrite andb_true_iff, all_fold_Forall.
Qed.

Lemma all_nodes_head P e : all_nodes P e = true → P e = true.
Proof. destruct e as [s t c d]. by intros [? _]%andb_true_iff. Qed.

Lemma all_nodes_children P e d :
  dirs e = Some d →
  all_nodes P e = true →
  map_Forall (λ _ e', all_nodes P e' = true) d.
Proof.
  destruct e as [s t c d']. intros [= ->] H%all_nodes_dir. tauto.
Qed.

Lemma all_nodes_file P e :
  dirs e = None → P e = true → all_nodes P e = true.
Proof.
  destruct e as [s t c d]. intros [= ->] HP. cbn [all_nodes dirs].
  by rewrite HP.
Qed.

Lemma sum_sizes_le f g (d : summary) :
  (∀ k e, d !! k = Some e → f e ≤ g e) → sum_sizes f d ≤ sum_sizes g d.
Proof.
  induction d as [|k e d Hk IH] using map_ind; intros Hfg.
  - by rewrite !sum_sizes_empty.
  - rewrite !sum_sizes_insert by done.
    pose proof (Hfg k e (lookup_insert_eq _ _ _)).
    assert (sum_sizes f d ≤ sum_sizes g d); [|lia].
    apply IH. intros k' e' Hk'. apply (Hfg k').
    rewrite lookup_insert_ne; [done|]. intros ->. congruence.
Qed.

Lemma sum_sizes_nonneg f (d : summary) :
  (∀ k e, d !! k = Some e → 0 ≤ f e) → 0 ≤ sum_sizes f d.
Proof.
  induction d as [|k e d Hk IH] using map_ind; intros Hf.
  - by rewrite sum_sizes_empty.
  - rewrite sum_sizes_insert by done.
    pose proof (Hf k e (lookup_insert_eq _ _ _)).
    assert (0 ≤ sum_sizes f d); [|lia].
    apply IH. intros k' e' Hk'. apply (Hf k').
    rewrite lookup_insert_ne; [done|]. intros ->. congruence.
Qed.

(** A recomputed directory has its sizes in order when its children do. *)
Lemma sizes_ordered_update_sizes e d :
  map_Forall (λ _ e', all_nodes sizes_ordered e' = true) d →
  all_nodes sizes_ordered (_update_sizes (set_dirs e d)) = true.
Proof.
  intros Hd. unfold _update_sizes, set_dirs. cbn [dirs].
  apply all_nodes_dir. split; [|done].
  apply bool_decide_eq_true. rewrite get_trimmed_Entry, get_collected_Entry.
  simpl. split.
  - apply sum_sizes_nonneg. intros k e' Hk.
    by apply Hd, all_nodes_head, bool_decide_eq_true in Hk as [? _].
  - apply sum_sizes_le. intros k e' Hk.
    by apply Hd, all_nodes_head, bool_decide_eq_true in Hk as [_ ?].
Qed.

Lemma merge_Forall (Q : entry → Prop) summary_old summary_new is_final :
  map_Forall (λ _ e, Q e) summary_old →
  map_Forall (λ _ n, ∀ o e,
                (∀ o', o = Some o' → Q o') →
                merge_name is_final n o = Some e → Q e)
             summary_new →
  map_Forall (λ _ e, Q e) (_merge summary_old summary_new is_final).
Proof.
  intros Hold Hnew k e. rewrite lookup_merge.
  destruct (summary_new !! k) as [n|] eqn:Hn; [|by apply Hold].
  destruct (merge_name is_final n (summary_old !! k)) as [e'|] eqn:He';
    simpl; [|by apply Hold].
  intros [= <-]. eapply (Hnew k n Hn); [|done].
  intros o' Ho'. by eapply Hold.
Qed.

Lemma merge_name_sizes_ordered is_final n :
  all_nodes sizes_ordered n = true →
  ∀ o e,
    (∀ o', o = Some o' → all_nodes sizes_ordered o' = true) →
    merge_name is_final n o = Some e →
    all_nodes sizes_ordered e = true.
Proof.
  induction n as [s t c|s t c d IH] using entry_ind'; intros Hn o e Ho.
  - destruct o as [o|]; [|by intros [= <-]].
    rewrite merge_name_file by done.
    destruct (dirs o) as [od|] eqn:Hod; [done|].
    specialize (Ho o eq_refl).
    pose proof (all_nodes_head _ _ Hn) as Hn'.
    pose proof (all_nodes_head _ _ Ho) as Ho'.
    apply bool_decide_eq_true in Hn', Ho'.
    unfold merge_file, _update_sizes. rewrite Hod. cbn [dirs].
    repeat case_match; intros [= <-]; [|done].
    apply all_nodes_file; [done|]. apply bool_decide_eq_true.
    rewrite get_trimmed_Entry, get_collected_Entry. simpl. lia.
  - destruct o as [o|].
    + rewrite (merge_name_dir _ _ _ d) by done. intros [= <-].
      apply sizes_ordered_update_sizes, merge_Forall.
      * specialize (Ho o eq_refl). unfold force_dir.
        destruct (dirs o) as [od|] eqn:Hod; simpl.
        -- rewrite Hod. simpl. by eapply all_nodes_children.
        -- apply map_Forall_empty.
      * intros k n' Hn'. apply (IH k n' Hn').
        by apply (all_nodes_children _ (Entry s t c (Some d)) d eq_refl Hn k).
    + rewrite merge_name_new. intros [= <-].
      apply (sizes_ordered_update_sizes (Entry s t c (Some d)) d).
      by apply (all_nodes_children _ (Entry s t c (Some d)) d eq_refl Hn).
Qed.

Lemma all_entries_Forall P (m : summary) :
  all_entries P m = true ↔ map_Forall (λ _ e, all_nodes P e = true) m.
Proof. apply all_fold_Forall. Qed.

(** [all_entries P] says that [P] holds at the end of every path. *)
Lemma all_entries_nodes P (m : summary) :
  all_entries P m = true ↔
  ∀ p e, lookup_path p m = Some e → P e = true.
Proof.
  rewrite all_entries_Forall. split.
  - intros Hm p. revert m Hm.
    induction p as [|k p IH]; intros m Hm e He; [done|].
    destruct (decide (p = [])) as [->|Hp].
    + simpl in He. by eapply all_nodes_head, Hm.
    + rewrite lookup_path_cons in He by done.
      destruct (m !! k) as [[s t c [d1|]]|] eqn:Hk; simplify_eq/=.
      eapply (IH d1); [|done].
      by eapply (all_nodes_children _ (Entry s t c (Some d1))), Hm.
  - intros Hnodes.
    assert (∀ e,
      P e = true →
      (∀ d p e', dirs e = Some d → lookup_path p d = Some e' →
                 P e' = true) →
      all_nodes P e = true) as Hentry.
    { intros e.
      induction e as [s t c|s t c d IH] using entry_ind'; intros He Hbelow.
      { by apply all_nodes_file. }
      apply all_nodes_dir. split; [done|].
      intros k e1 Hk. apply (IH k e1 Hk).
      - by apply (Hbelow d [k]).
      - intros d1 p e' Hd1 He'. apply (Hbelow d (k :: p)); [done|].
        destruct p as [|k' p]; [done|].
        rewrite lookup_path_cons by done. rewrite Hk. simpl.
        by rewrite Hd1. }
    intros k e Hk. apply Hentry.
    + by apply (Hnodes [k]).
    + intros d p e' Hd He'. apply (Hnodes (k :: p)).
      destruct p as [|k' p]; [done|].
      rewrite lookup_path_cons by done. rewrite Hk. simpl. by rewrite Hd.
Qed.

(** X4.  [_merge] keeps the sizes in order: when at every node of the old
    and of the new summary the trimmed size is not negative and the
    collected size is not below the trimmed size, the same holds at every
    node of the merged summary. *)
Theorem merge_sizes_ordered summary_old summary_new is_final :
  all_entries sizes_ordered summary_old = true →
  all_entries sizes_ordered summary_new = true →
  all_entries sizes_ordered (_merge summary_old summary_new is_final) = true.
Proof.
  rewrite !all_entries_Forall. intros Hold Hnew.
  apply merge_Forall; [done|].
  intros k n Hn. apply merge_name_sizes_ordered. by eapply Hnew.
Qed.

Lemma merge_sizes_ordered_witness :
  all_entries sizes_ordered (_merge ex_old_f ex_new_f false) = true.
Proof. apply merge_sizes_ordered; reflexivity. Defined.

Lemma delete_name_sizes_ordered o :
  all_nodes sizes_ordered o = true →
  ∀ name new e,
    delete_name name o new = Ok (Some e) →
    all_nodes sizes_ordered e = true.
Proof.
  induction o as [s t c|s t c d IH] using entry_ind'; intros Ho name new e.
  - rewrite delete_name_file by done.
    destruct new; [by intros [= <-]|]. case_bool_decide; [done|].
    intros [= <-]. apply all_nodes_file; [done|].
    apply all_nodes_head, bool_decide_eq_true in Ho.
    apply bool_decide_eq_true. unfold trim_missing.
    rewrite get_trimmed_Entry, get_collected_Entry. simpl.
    unfold get_collected in Ho. destruct c; simpl in *; lia.
  - rewrite (delete_name_dir _ _ d) by done.
    assert (∀ nd res, _delete_missing_entries d nd = Ok res →
              map_Forall (λ _ e', all_nodes sizes_ordered e' = true) res)
      as Hloop.
    { intros nd res Hres k e' Hk.
      pose proof (delete_loop_ok _ _ _ _ Hres k) as Hok.
      destruct (d !! k) as [o'|] eqn:Ho'; [|congruence].
      rewrite Hk in Hok. eapply (IH k o' Ho'); [|done].
      by apply (all_nodes_children _ (Entry s t c (Some d)) d eq_refl Ho k). }
    destruct new as [n|].
    + destruct (dirs n) as [nd|]; [|done].
      destruct (_delete_missing_entries d nd) as [res| |] eqn:Hres; [|done..].
      intros [= <-]. apply sizes_ordered_update_sizes. eauto.
    + destruct (_delete_missing_entries d ∅) as [res| |] eqn:Hres; [|done..].
      intros [= <-]. apply sizes_ordered_update_sizes. eauto.
Qed.

(** X5.  [_delete_missing_entries] keeps the sizes in order: when at every
    node of the old summary the trimmed size is not negative and the
    collected size is not below it, the same holds at every node of the
    summary that the pass returns. *)
Theorem delete_sizes_ordered summary_old summary_new res :
  all_entries sizes_ordered summary_old = true →
  _delete_missing_entries summary_old summary_new = Ok res →
  all_entries sizes_ordered res = true.
Proof.
  rewrite !all_entries_Forall. intros Hold Hres k e Hk.
  pose proof (delete_loop_ok _ _ _ _ Hres k) as Hok.
  destruct (summary_old !! k) as [o|] eqn:Ho; [|congruence].
  rewrite Hk in Hok. eapply delete_name_sizes_ordered; [|done].
  by eapply Hold.
Qed.

Lemma delete_sizes_ordered_witness :
  all_entries sizes_ordered ex_gone_after = true.
Proof.
  apply (delete_sizes_ordered ex_gone_before ex_gone_live).
  - reflexivity.
  - vm_compute. reflexivity.
Defined.

(** * Further properties of the snapshot builder *)

Lemma all_entries_impl (P Q : entry → bool) (m : summary) :
  (∀ e, P e = true → Q e = true) →
  all_entries P m = true → all_entries Q m = true.
Proof.
  rewrite !all_entries_nodes. intros HPQ HP p e He. by eapply HPQ, HP.
Qed.

Lemma snapshot_node_sizes_ordered e :
  snapshot_node e = true → sizes_ordered e = true.
Proof.
  unfold snapshot_node, sizes_ordered, get_collected, get_trimmed.
  rewrite !bool_decide_eq_true. intros (-> & -> & ?). simpl. lia.
Qed.

(** X6.  The summary of a directory walk holds original sizes only: no
    node has a trimmed or a collected size, and, in a file system without
    negative file sizes, no original size is negative.  So its sizes are in
    order at every node. *)
Theorem get_dir_summary_snapshot_nodes
    fs fuel path top_dir all_dirs s all_dirs' :
  (∀ p, 0 ≤ os_stat_st_size fs p) →
  get_dir_summary fs fuel path top_dir all_dirs = Ok (s, all_dirs') →
  all_entries snapshot_node s = true
  ∧ all_entries sizes_ordered s = true.
Proof.
  intros Hsize Hrun.
  assert (all_entries snapshot_node s = true) as Hs;
    [|split; [done|];
      by eapply all_entries_impl; [apply snapshot_node_sizes_ordered|]].
  apply all_entries_Forall.
  revert path top_dir all_dirs s all_dirs' Hrun.
  induction fuel as [|fuel IH]; intros path top ad s ad'; [done|].
  walk_cases as info ad1 Hskip Hloop; [| |done| |done|done].
  - intros [= <- _]. apply map_Forall_singleton, all_nodes_file; [done|].
    apply bool_decide_eq_true. simpl. auto.
  - intros [= <- _]. by apply map_Forall_singleton.
  - intros [= <- _]. apply map_Forall_singleton.
    eapply (scan_loop_ind _ path (λ _ info _,
      trimmed_size_bytes info = None
      ∧ collected_size_bytes info = None
      ∧ 0 ≤ original_size_bytes info
      ∧ ∃ d, dirs info = Some d
             ∧ map_Forall (λ _ e, all_nodes snapshot_node e = true) d))
      in Hloop.
    + destruct Hloop as (HT & HC & HS & d & Hd & Hall).
      destruct info as [s t c d']. simplify_eq/=.
      apply all_nodes_dir. split; [|done].
      apply bool_decide_eq_true. simpl. auto.
    + intros f rest info0 ad0 s0 ad0' child
        (HT & HC & HS & d & Hd & Hall) Hrec Hchild.
      pose proof (IH _ _ _ _ _ Hrec f child Hchild) as Hc.
      pose proof (all_nodes_head _ _ Hc) as Hc'.
      apply bool_decide_eq_true in Hc' as (_ & _ & ?).
      split_and!; [done|done|simpl; lia|].
      exists (<[f := child]> d). unfold add_child. rewrite Hd. simpl.
      split; [done|]. by apply map_Forall_insert_2.
    + split_and!; [done..|]. exists ∅. split; [done|].
      apply map_Forall_empty.
Qed.

Lemma ex_fs_sizes p : 0 ≤ os_stat_st_size (ex_fs 10 25 5) p.
Proof. simpl. repeat case_bool_decide; lia. Qed.

Lemma get_dir_summary_snapshot_nodes_witness :
  all_entries snapshot_node ex_last = true
  ∧ all_entries sizes_ordered ex_last = true.
Proof.
  apply (get_dir_summary_snapshot_nodes
           (ex_fs 10 25 5) 2 "/r/" "/r/" ∅ ex_last {[ "/r" ]}).
  - apply ex_fs_sizes.
  - vm_compute. reflexivity.
Defined.

(** * Further properties of the deletion pass *)

Lemma any_fold_exists (g : string → entry → bool) (m : summary) :
  map_fold (λ k o acc, g k o || acc) false m = true ↔
  ∃ k o, m !! k = Some o ∧ g k o = true.
Proof.
  induction m as [|k o m Hk IH] using map_ind.
  - rewrite map_fold_empty. split; [done|].
    intros (k & o & Hko & _). by rewrite lookup_empty in Hko.
  - rewrite map_fold_insert_L; [|intros j1 j2 z1 z2 y _ _ _;
      by destruct (g j1 z1), (g j2 z2), y|done].
    rewrite orb_true_iff, IH. split.
    + intros [Hg|(k' & o' & Hko' & Hg)].
      * exists k, o. by rewrite lookup_insert_eq.
      * exists k', o'. rewrite lookup_insert_ne; [done|].
        intros ->. congruence.
    + intros (k' & o' & Hko' & Hg).
      destruct (decide (k' = k)) as [->|Hne].
      * rewrite lookup_insert_eq in Hko'. left. congruence.
      * rewrite lookup_insert_ne in Hko' by done. right. eauto.
Qed.

(** The outcome of the loop, from the outcomes of its iterations. *)
Lemma delete_loop_outcome summary_old summary_new processed :
  (∀ k o, processed !! k = Some o →
     if blocked o (summary_new !! k)
     then delete_name k o (summary_new !! k) = Raise KeyError
     else ∃ r, delete_name k o (summary_new !! k) = Ok r) →
  if blocked_summary processed summary_new
  then delete_loop summary_old summary_new processed = Raise KeyError
  else ∃ res, delete_loop summary_old summary_new processed = Ok res.
Proof.
  unfold delete_loop, blocked_summary.
  induction processed as [|k o m Hk Hfirst IH] using map_first_key_ind;
    intros Hall.
  - rewrite !map_fold_empty. eauto.
  - rewrite !map_fold_insert_first_key by done.
    pose proof (Hall k o (lookup_insert_eq _ _ _)) as Hko.
    destruct (map_fold _ false m).
    + rewrite orb_true_r, IH; [done|].
      intros k' o' Hk'. apply Hall. rewrite lookup_insert_ne; [done|].
      intros ->. congruence.
    + rewrite orb_false_r. destruct IH as [cur ->].
      { intros k' o' Hk'. apply Hall. rewrite lookup_insert_ne; [done|].
        intros ->. congruence. }
      destruct (blocked o (summary_new !! k)).
      * by rewrite Hko.
      * destruct Hko as [r ->]. simpl. eauto.
Qed.

Lemma delete_name_outcome o : ∀ name new,
  if blocked o new
  then delete_name name o new = Raise KeyError
  else ∃ r, delete_name name o new = Ok r.
Proof.
  induction o as [s t c|s t c d IH] using entry_ind'; intros name new.
  - rewrite delete_name_file by done.
    destruct new; simpl; [by eauto|]. case_bool_decide; eauto.
  - rewrite (delete_name_dir _ _ d) by done.
    assert (∀ nd,
      if blocked_summary d nd
      then _delete_missing_entries d nd = Raise KeyError
      else ∃ res, _delete_missing_entries d nd = Ok res) as Hloop.
    { intros nd. apply delete_loop_outcome. intros k o' Ho'.
      apply (IH k o' Ho'). }
    destruct new as [[s' t' c' [nd|]]|]; cbn [blocked dirs].
    + specialize (Hloop nd). fold (blocked_summary d nd).
      destruct (blocked_summary d nd).
      * by rewrite Hloop.
      * destruct Hloop as [res ->]. simpl. eauto.
    + done.
    + specialize (Hloop ∅).
      assert (blocked_summary d ∅ = false) as Hempty.
      { apply not_true_is_false. unfold blocked_summary.
        rewrite any_fold_exists. intros (k & o' & _ & Hb).
        rewrite lookup_empty in Hb. by destruct o'. }
      rewrite Hempty in Hloop. destruct Hloop as [res ->]. simpl. eauto.
Qed.

(** [blocked_summary] in terms of paths. *)
Lemma blocked_summary_paths summary_old summary_new :
  blocked_summary summary_old summary_new = true ↔
  ∃ p o n,
    lookup_path p summary_old = Some o
    ∧ lookup_path p summary_new = Some n
    ∧ is_Some (dirs o) ∧ dirs n = None.
Proof.
  split.
  - assert (∀ o n k (so sn : summary),
      blocked o (Some n) = true →
      so !! k = Some o → sn !! k = Some n →
      ∃ p o' n',
        lookup_path (k :: p) so = Some o'
        ∧ lookup_path (k :: p) sn = Some n'
        ∧ is_Some (dirs o') ∧ dirs n' = None) as Hentry.
    { intros o.
      induction o as [s t c|s t c d IH] using entry_ind';
        intros n k so sn Hb Hso Hsn; [done|].
      destruct n as [s' t' c' [nd|]]; cbn [blocked dirs] in Hb.
      - apply any_fold_exists in Hb as (k' & o1 & Ho1 & Hb).
        destruct (nd !! k') as [n1|] eqn:Hn1; [|by destruct o1].
        destruct (IH k' o1 Ho1 n1 k' d nd Hb Ho1 Hn1)
          as (p & o' & n' & Ho' & Hn' & Hdir & Hfile).
        exists (k' :: p), o', n'.
        rewrite !(lookup_path_cons k) by done. rewrite Hso, Hsn. simpl.
        done.
      - exists [], (Entry s t c (Some d)), (Entry s' t' c' None).
        simpl. eauto. }
    unfold blocked_summary.
    intros (k & o & Ho & Hb)%any_fold_exists.
    destruct (summary_new !! k) as [n|] eqn:Hn; [|by destruct o].
    destruct (Hentry o n k _ _ Hb Ho Hn) as (p & o' & n' & ?).
    by exists (k :: p), o', n'.
  - intros (p & o & n & Ho & Hn & Hdir & Hfile).
    revert summary_old summary_new Ho Hn.
    induction p as [|k p IH]; intros so sn Ho Hn; [done|].
    unfold blocked_summary. apply any_fold_exists.
    destruct (decide (p = [])) as [->|Hp].
    + simpl in Ho, Hn. exists k, o. split; [done|]. rewrite Hn.
      destruct o as [s t c [d|]]; [|by destruct Hdir].
      destruct n as [s' t' c' d']. by simplify_eq/=.
    + rewrite lookup_path_cons in Ho, Hn by done.
      destruct (so !! k) as [[s t c [od|]]|] eqn:Hok; simplify_eq/=.
      destruct (sn !! k) as [[s' t' c' [nd|]]|] eqn:Hnk; simplify_eq/=.
      exists k, (Entry s t c (Some od)). split; [done|]. rewrite Hnk.
      cbn [blocked dirs]. by apply IH.
Qed.

(** X7.  [_delete_missing_entries] raises [KeyError] exactly when some
    directory of the old summary is a file in the new summary, at a path
    that both have; in every other case it returns. *)
Theorem delete_missing_entries_outcome summary_old summary_new :
  (_delete_missing_entries summary_old summary_new = Raise KeyError ↔
   ∃ p o n,
     lookup_path p summary_old = Some o
     ∧ lookup_path p summary_new = Some n
     ∧ is_Some (dirs o) ∧ dirs n = None)
  ∧ ((∃ res, _delete_missing_entries summary_old summary_new = Ok res) ↔
     ¬ ∃ p o n,
         lookup_path p summary_old = Some o
         ∧ lookup_path p summary_new = Some n
         ∧ is_Some (dirs o) ∧ dirs n = None).
Proof.
  rewrite <-blocked_summary_paths.
  pose proof (delete_loop_outcome summary_old summary_new summary_old
                (λ k o _, delete_name_outcome o k (summary_new !! k)))
    as Hrun.
  change (delete_loop summary_old summary_new summary_old)
    with (_delete_missing_entries summary_old summary_new) in Hrun.
  destruct (blocked_summary summary_old summary_new).
  - rewrite Hrun. split; [done|]. split; [by intros [? [=]]|done].
  - destruct Hrun as [res ->]. split; [done|]. split; [done|eauto].
Qed.

(** The pass on the children of a directory, as the iteration for the
    directory runs it: against the children of the new side, or against
    nothing when the new side lacks the directory. *)
Lemma delete_name_children name o od new r :
  dirs o = Some od →
  delete_name name o new = Ok r →
  ∃ nd res,
    _delete_missing_entries od nd = Ok res
    ∧ r = Some (_update_sizes (set_dirs o res))
    ∧ ((new = None ∧ nd = ∅) ∨ ∃ n, new = Some n ∧ dirs n = Some nd).
Proof.
  intros Ho. rewrite (delete_name_dir _ _ od) by done.
  destruct new as [n|].
  - destruct (dirs n) as [nd|] eqn:Hn; [|done].
    destruct (_delete_missing_entries od nd) as [res| |] eqn:Hres; [|done..].
    intros [= <-]. exists nd, res. split_and!; [done..|]. right. eauto.
  - destruct (_delete_missing_entries od ∅) as [res| |] eqn:Hres; [|done..].
    intros [= <-]. exists ∅, res. split_and!; [done..|]. by left.
Qed.

(** X8.  The names that [_delete_missing_entries] removes, at any depth: an
    entry of the old summary is absent from the result exactly when it is a
    file that the new summary lacks at that path and whose name is in
    [FILES_TO_IGNORE].  Directories are never removed, and no entry
    appears. *)
Theorem delete_removes_only_ignored p : ∀ summary_old summary_new res,
  _delete_missing_entries summary_old summary_new = Ok res →
  (lookup_path p res = None ↔
     lookup_path p summary_old = None
     ∨ ∃ o name,
         lookup_path p summary_old = Some o
         ∧ dirs o = None
         ∧ lookup_path p summary_new = None
         ∧ last p = Some name
         ∧ name ∈ FILES_TO_IGNORE).
Proof.
  induction p as [|k p IH]; intros so sn res Hres; [simpl; by split; auto|].
  pose proof (delete_loop_ok _ _ _ _ Hres k) as Hk.
  destruct (decide (p = [])) as [->|Hp].
  - simpl. destruct (so !! k) as [o|] eqn:Ho.
    + destruct (dirs o) as [od|] eqn:Hod.
      * destruct (delete_name_children _ _ _ _ _ Hod Hk)
          as (nd & res' & _ & Hr & _).
        rewrite Hr. split; [done|].
        intros [?|(o' & name & ? & ? & _)]; [done|congruence].
      * rewrite delete_name_file in Hk by done.
        destruct (sn !! k) as [n|] eqn:Hn.
        { injection Hk as <-. split; [done|].
          intros [?|(o' & name & _ & _ & ? & _)]; done. }
        case_bool_decide as Hin; injection Hk as <-.
        { split; [|done]. intros _. right. by exists o, k. }
        split; [done|].
        intros [?|(o' & name & _ & _ & _ & [= <-] & ?)]; done.
    + rewrite Hk. by split; auto.
  - rewrite !(lookup_path_cons k) by done.
    assert (last (k :: p) = last p) as -> by (by destruct p).
    destruct (so !! k) as [o|] eqn:Ho; simpl.
    + destruct (dirs o) as [od|] eqn:Hod.
      * destruct (delete_name_children _ _ _ _ _ Hod Hk)
          as (nd & res' & Hres' & Hr & Hnew).
        rewrite Hr. simpl. rewrite (IH _ _ _ Hres').
        destruct Hnew as [[-> ->]|(n & -> & Hn)]; simpl; [|by rewrite Hn].
        by rewrite lookup_path_empty.
      * assert ((e ← res !! k; d ← dirs e; lookup_path p d) = None)
          as Hgone.
        { rewrite delete_name_file in Hk by done.
          destruct (sn !! k); [|case_bool_decide]; injection Hk as <-;
            simpl; by rewrite ?Hod. }
        simpl in Hgone. rewrite Hgone. by split; auto.
    + rewrite Hk. simpl. by split; auto.
Qed.

(** The state file of [ex_state_before] is gone after the pass. *)
Lemma delete_removes_only_ignored_witness :
  lookup_path [ROOT_DIR; "control.autoserv.state"] ex_state_after = None.
Proof.
  apply (delete_removes_only_ignored [ROOT_DIR; "control.autoserv.state"]
           ex_state_before ex_state_live ex_state_after).
  - vm_compute. reflexivity.
  - right. exists (file 5), "control.autoserv.state".
    split_and!; [done..|].
    unfold FILES_TO_IGNORE. by apply elem_of_singleton.
Defined.

Lemma sum_sizes_zero f (d : summary) :
  (∀ k e, d !! k = Some e → f e = 0) → sum_sizes f d = 0.
Proof.
  induction d as [|k e d Hk IH] using map_ind; intros Hf.
  - apply sum_sizes_empty.
  - rewrite sum_sizes_insert by done.
    rewrite (Hf k e (lookup_insert_eq _ _ _)), IH; [done|].
    intros k' e' Hk'. apply (Hf k'). rewrite lookup_insert_ne; [done|].
    intros ->. congruence.
Qed.

(** An entry that the new side lacks comes out with the trimmed size 0. *)
Lemma delete_name_missing o : ∀ name r,
  delete_name name o None = Ok (Some r) → trimmed_size_bytes r = Some 0.
Proof.
  induction o as [s t c|s t c d IH] using entry_ind'; intros name r.
  - rewrite delete_name_file by done.
    case_bool_decide; [done|]. by intros [= <-].
  - intros Hr.
    destruct (delete_name_children name (Entry s t c (Some d)) d None
                (Some r) eq_refl Hr)
      as (nd & res & Hres & [= ->] & [[_ ->]|(n & [=] & _)]).
    cbn [_update_sizes set_dirs dirs trimmed_size_bytes]. f_equal.
    apply sum_sizes_zero. intros k e Hk.
    pose proof (delete_loop_ok _ _ _ _ Hres k) as Hok.
    rewrite lookup_empty in Hok.
    destruct (d !! k) as [o'|] eqn:Ho'; [|congruence].
    rewrite Hk in Hok. apply (IH k o' Ho') in Hok.
    unfold get_trimmed. by rewrite Hok.
Qed.

(** X9.  After [_delete_missing_entries], every entry at a path that the
    new summary lacks, a file or a directory, has the trimmed size 0. *)
Theorem delete_trims_missing p : ∀ summary_old summary_new res e,
  _delete_missing_entries summary_old summary_new = Ok res →
  lookup_path p res = Some e →
  lookup_path p summary_new = None →
  trimmed_size_bytes e = Some 0.
Proof.
  induction p as [|k p IH]; intros so sn res e Hres; [done|].
  pose proof (delete_loop_ok _ _ _ _ Hres k) as Hk.
  destruct (decide (p = [])) as [->|Hp].
  - simpl. intros He Hsn. rewrite He, Hsn in Hk.
    destruct (so !! k) as [o|]; [|done].
    by eapply delete_name_missing.
  - rewrite !(lookup_path_cons k) by done.
    destruct (res !! k) as [e1|] eqn:He1; [|done]. simpl.
    destruct (dirs e1) as [d1|] eqn:Hd1; [|done]. simpl.
    intros He Hsn.
    destruct (so !! k) as [o|] eqn:Ho; [|congruence].
    destruct (dirs o) as [od|] eqn:Hod.
    + destruct (delete_name_children _ _ _ _ _ Hod Hk)
        as (nd & res' & Hres' & [= ->] & Hnew).
      rewrite update_sizes_dirs in Hd1. injection Hd1 as <-.
      apply (IH _ nd _ _ Hres' He).
      destruct Hnew as [[_ ->]|(n & Hn & Hnd)].
      * apply lookup_path_empty.
      * by rewrite Hn in Hsn; simpl in Hsn; rewrite Hnd in Hsn.
    + rewrite delete_name_file in Hk by done.
      destruct (sn !! k); [|case_bool_decide]; simplify_eq/=.
Qed.

(** The file [gone] of [ex_gone_before] is missing from the live
    directory. *)
Lemma delete_trims_missing_witness :
  trimmed_size_bytes (Entry 100 (Some 0) (Some 100) None) = Some 0.
Proof.
  apply (delete_trims_missing [ROOT_DIR; "gone"]
           ex_gone_before ex_gone_live ex_gone_after).
  - vm_compute. reflexivity.
  - reflexivity.
  - reflexivity.
Defined.

(** ** Nothing missing *)

(** The result of the loop when every iteration returns. *)
Lemma delete_loop_all (f : entry → entry) summary_old summary_new :
  (∀ k o, summary_old !! k = Some o →
     delete_name k o (summary_new !! k) = Ok (Some (f o))) →
  _delete_missing_entries summary_old summary_new = Ok (f <$> summary_old).
Proof.
  intros Hall.
  pose proof (delete_loop_outcome summary_old summary_new summary_old
                (λ k o _, delete_name_outcome o k (summary_new !! k)))
    as Hrun.
  change (delete_loop summary_old summary_new summary_old)
    with (_delete_missing_entries summary_old summary_new) in Hrun.
  destruct (blocked_summary summary_old summary_new) eqn:Hb.
  - apply any_fold_exists in Hb as (k & o & Hk & Hb).
    pose proof (delete_name_outcome o k (summary_new !! k)) as Ho.
    rewrite Hb, (Hall k o Hk) in Ho. done.
  - destruct Hrun as [res Hres]. rewrite Hres. f_equal.
    apply map_eq. intros k. rewrite lookup_fmap.
    pose proof (delete_loop_ok _ _ _ _ Hres k) as Hk.
    destruct (summary_old !! k) as [o|] eqn:Ho; [|done].
    rewrite (Hall k o Ho) in Hk. by injection Hk as <-.
Qed.

Lemma covered_children summary_old summary_new k o od :
  covered summary_old summary_new →
  summary_old !! k = Some o →
  dirs o = Some od →
  ∃ n nd, summary_new !! k = Some n ∧ dirs n = Some nd ∧ covered od nd.
Proof.
  intros Hcov Ho Hod.
  destruct (Hcov [k] o Ho) as (n & Hn & Hdir). simpl in Hn.
  destruct Hdir as [nd Hnd]; [by rewrite Hod|].
  exists n, nd. split_and!; [done..|].
  intros p o' Ho'. destruct p as [|k' p]; [done|].
  destruct (Hcov (k :: k' :: p) o') as (n' & Hn' & Hdir').
  - rewrite lookup_path_cons by done. rewrite Ho. simpl. by rewrite Hod.
  - rewrite lookup_path_cons in Hn' by done. rewrite Hn in Hn'.
    simpl in Hn'. rewrite Hnd in Hn'. eauto.
Qed.

Lemma delete_name_covered o : ∀ name n,
  (∀ od, dirs o = Some od → ∃ nd, dirs n = Some nd ∧ covered od nd) →
  delete_name name o (Some n) = Ok (Some (update_all o)).
Proof.
  induction o as [s t c|s t c d IH] using entry_ind'; intros name n Hcov.
  - by rewrite delete_name_file.
  - rewrite (delete_name_dir _ _ d) by done.
    destruct (Hcov d eq_refl) as (nd & -> & Hd).
    rewrite (delete_loop_all update_all); [done|].
    intros k o' Ho'.
    destruct (Hd [k] o' Ho') as (n' & Hn' & _). simpl in Hn'. rewrite Hn'.
    apply (IH k o' Ho'). intros od' Hod'.
    destruct (covered_children _ _ _ _ _ Hd Ho' Hod')
      as (n1 & nd' & Hn1 & Hnd' & Hcov').
    exists nd'. split; [congruence|done].
Qed.

Lemma delete_covered summary_old summary_new :
  covered summary_old summary_new →
  _delete_missing_entries summary_old summary_new =
    Ok (update_all <$> summary_old).
Proof.
  intros Hcov. apply delete_loop_all. intros k o Ho.
  destruct (Hcov [k] o Ho) as (n & Hn & _). simpl in Hn. rewrite Hn.
  apply delete_name_covered. intros od Hod.
  destruct (covered_children _ _ _ _ _ Hcov Ho Hod)
    as (n1 & nd & Hn1 & Hnd & Hcov').
  exists nd. split; [congruence|done].
Qed.

Lemma sizes_update_all_map (m : summary) :
  well_formed m = true → sizes <$> (update_all <$> m) = sizes <$> m.
Proof.
  intros Hm%well_formed_Forall. rewrite <-map_fmap_compose.
  apply map_fmap_ext. intros k e Hk. simpl.
  apply sizes_update_all. by eapply Hm.
Qed.

(** X10.  When the new summary has every entry of the old one at the same
    path, a directory as a directory, [_delete_missing_entries] returns,
    removes nothing and trims nothing: it recomputes the sizes of the
    directories from their children, and for a well-formed old summary the
    result has the three sizes of the old summary at every node. *)
Theorem delete_nothing_missing summary_old summary_new :
  (∀ p o, lookup_path p summary_old = Some o →
     ∃ n, lookup_path p summary_new = Some n
          ∧ (is_Some (dirs o) → is_Some (dirs n))) →
  ∃ res,
    _delete_missing_entries summary_old summary_new = Ok res
    ∧ res = update_all <$> summary_old
    ∧ (well_formed summary_old = true →
       sizes <$> res = sizes <$> summary_old).
Proof.
  intros Hcov. exists (update_all <$> summary_old).
  split_and!; [by apply delete_covered|done|apply sizes_update_all_map].
Qed.

(** The directory of [ex_summary_1] and its file [a] are in
    [ex_summary_2]. *)
Lemma delete_nothing_missing_witness :
  ∃ res,
    _delete_missing_entries ex_summary_1 ex_summary_2 = Ok res
    ∧ res = update_all <$> ex_summary_1
    ∧ (well_formed ex_summary_1 = true →
       sizes <$> res = sizes <$> ex_summary_1).
Proof.
  apply (delete_nothing_missing ex_summary_1 ex_summary_2).
  intros p o. unfold ex_summary_1, ex_summary_2, tree.
  destruct p as [|k [|k' [|k'' p]]]; [done|..].
  - simpl. intros [<- <-]%lookup_singleton_Some.
    eexists. split; [reflexivity|]. by eauto.
  - rewrite !(lookup_path_cons k) by done.
    destruct (decide (k = ROOT_DIR)) as [->|Hk];
      [|by rewrite lookup_singleton_ne].
    rewrite !lookup_singleton_eq. simpl.
    intros [[<- <-]|[_ Hnone]]%lookup_insert_Some; [|done].
    eexists. split; [reflexivity|]. by intros [? [=]].
  - rewrite !(lookup_path_cons k) by done.
    destruct (decide (k = ROOT_DIR)) as [->|Hk];
      [|by rewrite lookup_singleton_ne].
    rewrite !lookup_singleton_eq. cbn [mbind option_bind dirs dir].
    rewrite !(lookup_path_cons k') by done.
    destruct (decide (k' = "a")) as [->|Hk']; [done|].
    simpl. by rewrite lookup_insert_ne.
Defined.

(** * Further properties of the sequencer *)

Lemma covered_update_sizes (m : summary) : covered (_update_sizes <$> m) m.
Proof.
  intros p o. destruct p as [|k p]; [done|].
  destruct (decide (p = [])) as [->|Hp].
  - simpl. rewrite lookup_fmap. destruct (m !! k) as [e|]; [|done].
    intros [= <-]. exists e. split; [done|]. by rewrite update_sizes_dirs.
  - rewrite !(lookup_path_cons k) by done. rewrite lookup_fmap.
    destruct (m !! k) as [e|]; [|done]. simpl. rewrite update_sizes_dirs.
    intros Ho. by exists o.
Qed.

Lemma well_formed_update_sizes (m : summary) :
  well_formed m = true → well_formed (_update_sizes <$> m) = true.
Proof.
  rewrite !well_formed_Forall. intros Hm. apply map_Forall_fmap.
  intros k e Hk. simpl. apply dir_sums_update_sizes. intros d Hd.
  specialize (Hm k e Hk). destruct e as [s t c d']. simpl in Hd. subst d'.
  by eapply dir_sums_children.
Qed.

(** X11.  Without a summary file, [merge_summaries] returns whenever the
    walk of the directory does: the collected bytes are 0, and the merged
    summary has the names and, at every node, the three sizes of the
    summary of the walk. *)
Theorem merge_summaries_no_history fs fuel path all_dirs last all_dirs' :
  (∀ p, NoDup (os_listdir fs p)) →
  get_dir_summary fs fuel (with_sep path) (with_sep path) all_dirs =
    Ok (last, all_dirs') →
  ∃ merged,
    merge_summaries fs fuel [] path all_dirs = Ok (0, merged, all_dirs')
    ∧ sizes <$> merged = sizes <$> last.
Proof.
  intros Hnodup Hrun.
  assert (well_formed last = true) as Hlast.
  { apply well_formed_Forall. intros k e Hk.
    eapply get_dir_summary_snapshot in Hrun; [|done].
    by apply Hrun, is_snapshot_spec in Hk as [? _]. }
  exists (update_all <$> (_update_sizes <$> last)). split.
  - unfold merge_summaries. cbn [merge_all head tail foldl default].
    unfold client_collected. rewrite bool_decide_eq_true_2 by done.
    simpl. rewrite Hrun. simpl. rewrite merge_empty.
    by rewrite delete_covered by apply covered_update_sizes.
  - rewrite sizes_update_all_map by (by apply well_formed_update_sizes).
    rewrite <-map_fmap_compose. apply map_fmap_ext. intros k e Hk. simpl.
    apply sizes_update_sizes. by eapply well_formed_Forall.
Qed.

(** The directory [/r] with the files [a], [b] and [c], and no summary
    file. *)
Lemma merge_summaries_no_history_witness :
  ∃ merged,
    merge_summaries (ex_fs 10 25 5) 2 [] "/r" ∅ = Ok (0, merged, {["/r"]})
    ∧ sizes <$> merged = sizes <$> ex_last.
Proof.
  apply (merge_summaries_no_history (ex_fs 10 25 5) 2%nat "/r" ∅ ex_last).
  - apply ex_fs_listdir_NoDup.
  - vm_compute. reflexivity.
Defined.

(** ** The size information of a merged summary *)

(** The walk of a path that is not a file gives one entry, a directory,
    under the base name of the path. *)
Lemma get_dir_summary_root fs fuel path top_dir all_dirs s all_dirs' :
  get_dir_summary fs fuel path top_dir all_dirs = Ok (s, all_dirs') →
  os_path_isfile fs path = false →
  ∃ e d, s = {[ os_path_basename path := e ]} ∧ dirs e = Some d.
Proof.
  destruct fuel as [|fuel]; [done|]. intros Hrun Hfile. revert Hrun.
  simpl. rewrite Hfile.
  destruct (_ || _) eqn:Hskip; [intros [= <- _]; by eauto|].
  destruct (os_listdir_OSError fs path); [done|].
  destruct (foldl _ _ _) as [[info ad1]| |] eqn:Hloop; [|done..].
  intros [= <- _].
  eapply (scan_loop_ind _ path (λ _ info _, is_Some (dirs info))) in Hloop;
    [|by intros; unfold add_child; simpl; eauto|by simpl; eauto].
  destruct Hloop as [d Hd]. eauto.
Qed.

(** A directory of the new summary is a directory after the merge. *)
Lemma merge_dir_at summary_old summary_new is_final k n nd :
  summary_new !! k = Some n →
  dirs n = Some nd →
  ∃ e d, _merge summary_old summary_new is_final !! k = Some e
         ∧ dirs e = Some d.
Proof.
  intros Hn Hnd. rewrite lookup_merge, Hn.
  destruct (summary_old !! k) as [o|].
  - rewrite (merge_name_dir _ _ _ nd) by done. simpl.
    eexists _, _. split; [done|]. by rewrite update_sizes_dirs.
  - rewrite merge_name_new. simpl. exists (_update_sizes n), nd.
    by rewrite update_sizes_dirs.
Qed.

(** X12.  [get_result_size_info] on what [merge_summaries] returns for a
    path that is not a regular file: the root of the merged summary is a
    directory with its sizes recomputed, so the call raises no [KeyError];
    the kilobytes are the collected bytes and the sums of the original and
    of the trimmed sizes of the children of the root, divided by 1024 and
    rounded down, and the results count as throttled exactly when the two
    sums differ. *)
Theorem merge_summaries_size_info
    fs fuel all_summaries path all_dirs total merged all_dirs' :
  os_path_isfile fs (with_sep path) = false →
  merge_summaries fs fuel all_summaries path all_dirs =
    Ok (total, merged, all_dirs') →
  ∃ root d,
    merged !! ROOT_DIR = Some root
    ∧ dirs root = Some d
    ∧ get_result_size_info total merged =
        Ok {| client_result_collected_KB := total / 1024;
              original_result_total_KB :=
                sum_sizes original_size_bytes d / 1024;
              result_uploaded_KB := sum_sizes get_trimmed d / 1024;
              result_throttled :=
                bool_decide (sum_sizes original_size_bytes d
                             ≠ sum_sizes get_trimmed d) |}.
Proof.
  intros Hfile. unfold merge_summaries.
  destruct (client_collected _) as [c| |]; [|done..]. simpl.
  destruct (get_dir_summary _ _ _ _ _) as [[last ad1]| |] eqn:Hwalk;
    [|done..]. simpl.
  destruct (_delete_missing_entries _ _) as [res| |] eqn:Hdel; [|done..].
  simpl. intros [= <- <- <-].
  destruct (get_dir_summary_root _ _ _ _ _ _ _ Hwalk Hfile)
    as (e & nd & -> & Hnd).
  rewrite basename_with_sep in Hdel.
  destruct (merge_dir_at (merge_all all_summaries) {[ROOT_DIR := e]} true
              ROOT_DIR e nd (lookup_singleton_eq _ _) Hnd)
    as (o & od & Ho & Hod).
  pose proof (delete_loop_ok _ _ _ _ Hdel ROOT_DIR) as Hroot.
  rewrite Ho in Hroot.
  destruct (delete_name_children _ _ _ _ _ Hod Hroot)
    as (nd' & res' & _ & Hres & _).
  exists (_update_sizes (set_dirs o res')), res'.
  split_and!; [done|done|].
  unfold get_result_size_info. by rewrite Hres.
Qed.

(** The summary files [{a:10}] and [{a:10, b:20}] and the live directory
    [{a:10, b:25, c:5}]: 30 collected bytes, 40 original and 40 trimmed
    bytes, none of them a kilobyte, and no throttling. *)
Lemma merge_summaries_size_info_witness :
  ∃ root d,
    ex_merged !! ROOT_DIR = Some root
    ∧ dirs root = Some d
    ∧ get_result_size_info 30 ex_merged =
        Ok {| client_result_collected_KB := 30 / 1024;
              original_result_total_KB :=
                sum_sizes original_size_bytes d / 1024;
              result_uploaded_KB := sum_sizes get_trimmed d / 1024;
              result_throttled :=
                bool_decide (sum_sizes original_size_bytes d
                             ≠ sum_sizes get_trimmed d) |}.
Proof.
  apply (merge_summaries_size_info
           (ex_fs 10 25 5) 2%nat [ex_summary_1; ex_summary_2] "/r" ∅
           30 ex_merged {[ "/r" ]}).
  - reflexivity.
  - vm_compute. reflexivity.
Defined.

(** ** Throttling *)

Lemma sum_sizes_eq_iff f g (d : summary) :
  (∀ k e, d !! k = Some e → f e ≤ g e) →
  sum_sizes f d = sum_sizes g d ↔ ∀ k e, d !! k = Some e → f e = g e.
Proof.
  intros Hle. split; [|apply sum_sizes_ext].
  induction d as [|k e d Hk IH] using map_ind; [done|].
  rewrite !sum_sizes_insert by done. intros Hsum.
  assert (∀ k' e', d !! k' = Some e' → f e' ≤ g e') as Hle'.
  { intros k' e' Hk'. apply (Hle k'). rewrite lookup_insert_ne; [done|].
    intros ->. congruence. }
  pose proof (Hle k e (lookup_insert_eq _ _ _)).
  pose proof (sum_sizes_le f g d Hle').
  intros k' e' [[<- <-]|[_ Hk']]%lookup_insert_Some; [lia|].
  apply (IH Hle' ltac:(lia) k' e' Hk').
Qed.

(** In a well-formed entry whose files have a trimmed size that is not
    above the original size, the same holds for the entry, with equality
    exactly when no file is trimmed. *)
Lemma untrimmed_entry e :
  dir_sums e = true →
  all_nodes file_within e = true →
  get_trimmed e ≤ original_size_bytes e
  ∧ (get_trimmed e = original_size_bytes e ↔
     all_nodes file_untrimmed e = true).
Proof.
  induction e as [s t c|s t c d IH] using entry_ind'; intros Hsums Hin.
  - apply all_nodes_head, bool_decide_eq_true in Hin.
    split; [by apply Hin|]. split.
    + intros Heq. apply all_nodes_file; [done|].
      by apply bool_decide_eq_true.
    + intros Hun%all_nodes_head%bool_decide_eq_true. by apply Hun.
  - apply dir_sums_dir in Hsums as (HS & HT & _ & Hd).
    apply all_nodes_dir in Hin as [_ Hin].
    rewrite get_trimmed_Entry. cbn [original_size_bytes].
    rewrite HT, HS.
    assert (∀ k e, d !! k = Some e → get_trimmed e ≤ original_size_bytes e)
      as Hle.
    { intros k e Hk. by apply (IH k e Hk); [eapply Hd|eapply Hin]. }
    split; [by apply sum_sizes_le|].
    rewrite (sum_sizes_eq_iff _ _ _ Hle), all_nodes_dir. split.
    + intros Heq. split; [by apply bool_decide_eq_true|].
      intros k e Hk. apply (IH k e Hk); [by eapply Hd|by eapply Hin|].
      by apply (Heq k).
    + intros [_ Hun] k e Hk.
      apply (IH k e Hk); [by eapply Hd|by eapply Hin|by eapply Hun].
Qed.

(** X13.  For a summary whose root is well-formed and has no file with a
    trimmed size above its original size, [get_result_size_info] reports
    the results as not throttled exactly when no file under the root, at
    any depth, has a trimmed size that differs from its original size. *)
Theorem throttled_iff_some_file_trimmed total (m : summary) root info :
  m !! ROOT_DIR = Some root →
  dir_sums root = true →
  all_nodes file_within root = true →
  get_result_size_info total m = Ok info →
  result_throttled info = false ↔ all_nodes file_untrimmed root = true.
Proof.
  intros Hroot Hsums Hin. unfold get_result_size_info. rewrite Hroot.
  destruct (trimmed_size_bytes root) as [t|] eqn:Ht; [|done].
  intros [= <-]. cbn [result_throttled].
  destruct (untrimmed_entry root Hsums Hin) as [_ <-].
  unfold get_trimmed. rewrite Ht. simpl.
  rewrite bool_decide_eq_false. split.
  - intros Hnn. by destruct (decide (original_size_bytes root = t)).
  - intros -> Hne. by apply Hne.
Qed.

(** The merged summary of the example has nothing trimmed, and its size
    information, with less than a kilobyte everywhere, says so. *)
Lemma throttled_iff_some_file_trimmed_witness :
  (false = false ↔
   all_nodes file_untrimmed
     (Entry 40 (Some 40) (Some 60)
        (Some {[ "a" := file 10;
                 "b" := Entry 25 (Some 25) (Some 45) None;
                 "c" := file 5 ]})) = true).
Proof.
  apply (throttled_iff_some_file_trimmed 30 ex_merged _
           {| client_result_collected_KB := 0;
              original_result_total_KB := 0;
              result_uploaded_KB := 0;
              result_throttled := false |}).
  - reflexivity.
  - vm_compute. reflexivity.
  - vm_compute. reflexivity.
  - vm_compute. reflexivity.
Defined.

(** * The names of a walked directory *)

(** X14.  A walk that returns for a directory it does not skip gives one
    entry under the base name of the path, a directory whose children are
    named exactly by [os.listdir]; a listed name that is a regular file
    has the size of [os.stat] as its original size, and no other size. *)
Theorem get_dir_summary_lists fs fuel path top_dir all_dirs s all_dirs' :
  os_path_isfile fs path = false →
  (os_path_islink fs path
   && String.prefix top_dir (os_path_realpath fs path))
  || bool_decide (os_path_realpath fs path ∈ all_dirs) = false →
  get_dir_summary fs fuel path top_dir all_dirs = Ok (s, all_dirs') →
  ∃ e d,
    s = {[ os_path_basename path := e ]}
    ∧ dirs e = Some d
    ∧ (∀ f, is_Some (d !! f) ↔ f ∈ os_listdir fs path)
    ∧ (∀ f, f ∈ os_listdir fs path →
         os_path_isfile fs (os_path_join path f) = true →
         d !! f = Some (file (os_stat_st_size fs (os_path_join path f)))).
Proof.
  destruct fuel as [|fuel]; [done|]. intros Hfile Hskip. simpl.
  rewrite Hfile, Hskip.
  destruct (os_listdir_OSError fs path); [done|].
  destruct (foldl _ _ _) as [[info ad1]| |] eqn:Hloop; [|done..].
  intros [= <- _].
  eapply (scan_loop_ind _ path (λ rest info _,
    ∃ d seen,
      dirs info = Some d
      ∧ merge_sort String.le (os_listdir fs path) = seen ++ rest
      ∧ (∀ f, is_Some (d !! f) ↔ f ∈ seen)
      ∧ (∀ f, f ∈ seen →
           os_path_isfile fs (os_path_join path f) = true →
           d !! f =
             Some (file (os_stat_st_size fs (os_path_join path f))))))
    in Hloop.
  - destruct Hloop as (d & seen & Hd & Hsorted & Hnames & Hfiles).
    rewrite app_nil_r in Hsorted. subst seen. exists info, d.
    split_and!; [done|done| |].
    + intros f. by rewrite Hnames, merge_sort_Permutation.
    + intros f Hf. apply Hfiles. by rewrite merge_sort_Permutation.
  - intros f rest info0 ad0 s0 ad0' child
      (d & seen & Hd & Hsorted & Hnames & Hfiles) Hrec Hchild.
    exists (<[f := child]> d), (seen ++ [f]).
    unfold add_child. rewrite Hd. simpl. split_and!.
    + done.
    + by rewrite <-app_assoc.
    + intros g. rewrite elem_of_app, list_elem_of_singleton.
      destruct (decide (g = f)) as [->|Hne].
      * rewrite lookup_insert_eq. split; [by right|by eauto].
      * rewrite lookup_insert_ne by done. rewrite Hnames. tauto.
    + intros g Hg Hgfile. destruct (decide (g = f)) as [->|Hne].
      * rewrite lookup_insert_eq. f_equal.
        destruct fuel as [|fuel]; [done|]. simpl in Hrec.
        rewrite Hgfile in Hrec. injection Hrec as <- _.
        by apply lookup_singleton_Some in Hchild as [_ <-].
      * rewrite lookup_insert_ne by done. apply Hfiles; [|done].
        apply elem_of_app in Hg as [?|Hg]; [done|].
        by apply list_elem_of_singleton in Hg.
  - exists ∅, []. split_and!; [done|done| |].
    + intros f. rewrite lookup_empty, elem_of_nil. split; [|done].
      by intros [? [=]].
    + intros f Hf. by apply elem_of_nil in Hf.
Qed.

(** The directory [/r] with the files [a], [b] and [c]. *)
Lemma get_dir_summary_lists_witness :
  ∃ e d,
    ex_last = {[ os_path_basename "/r/" := e ]}
    ∧ dirs e = Some d
    ∧ (∀ f, is_Some (d !! f) ↔ f ∈ os_listdir (ex_fs 10 25 5) "/r/")
    ∧ (∀ f, f ∈ os_listdir (ex_fs 10 25 5) "/r/" →
         os_path_isfile (ex_fs 10 25 5) (os_path_join "/r/" f) = true →
         d !! f =
           Some (file (os_stat_st_size (ex_fs 10 25 5)
                         (os_path_join "/r/" f)))).
Proof.
  apply (get_dir_summary_lists (ex_fs 10 25 5) 2 "/r/" "/r/" ∅
           ex_last {[ "/r" ]}).
  - reflexivity.
  - reflexivity.
  - vm_compute. reflexivity.
Defined.

(** * The live directory in the merged summary *)

(** Every entry of the new summary has an entry at its path after the
    merge, a directory for a directory. *)
Lemma merge_new_paths p : ∀ summary_old summary_new is_final n,
  lookup_path p summary_new = Some n →
  ∃ e, lookup_path p (_merge summary_old summary_new is_final) = Some e
       ∧ (is_Some (dirs n) → is_Some (dirs e)).
Proof.
  induction p as [|k p IH]; intros so sn is_final n Hn; [done|].
  destruct (decide (p = [])) as [->|Hp].
  - simpl in *. rewrite lookup_merge, Hn.
    destruct (so !! k) as [o|].
    + destruct (dirs n) as [nd|] eqn:Hnd.
      * rewrite (merge_name_dir _ _ _ nd) by done. simpl.
        eexists. split; [done|]. rewrite update_sizes_dirs. by eauto.
      * destruct (merge_name is_final n (Some o)) as [e|]; simpl.
        -- exists e. split; [done|]. by intros [? [=]].
        -- exists o. split; [done|]. by intros [? [=]].
    + rewrite merge_name_new. simpl. eexists. split; [done|].
      by rewrite update_sizes_dirs.
  - rewrite lookup_path_cons in Hn |- * by done. rewrite lookup_merge.
    destruct (sn !! k) as [n1|] eqn:Hn1; [|done]. simpl in Hn.
    destruct (dirs n1) as [nd|] eqn:Hnd; [|done]. simpl in Hn.
    destruct (so !! k) as [o|].
    + rewrite (merge_name_dir _ _ _ nd) by done. simpl. by apply IH.
    + rewrite merge_name_new. simpl. rewrite update_sizes_dirs, Hnd. simpl.
      by exists n.
Qed.

(** An entry that both summaries have is in the result of a pass that
    returns, as the kind of entry it was; and it was not a directory over a
    file. *)
Lemma delete_keeps_present p : ∀ summary_old summary_new res o n,
  _delete_missing_entries summary_old summary_new = Ok res →
  lookup_path p summary_old = Some o →
  lookup_path p summary_new = Some n →
  ∃ e, lookup_path p res = Some e
       ∧ (dirs e = None ↔ dirs o = None)
       ∧ (is_Some (dirs o) → is_Some (dirs n)).
Proof.
  induction p as [|k p IH]; intros so sn res o n Hres Ho Hn; [done|].
  pose proof (delete_loop_ok _ _ _ _ Hres k) as Hk.
  destruct (decide (p = [])) as [->|Hp].
  - simpl in *. rewrite Ho, Hn in Hk.
    destruct (dirs o) as [od|] eqn:Hod.
    + destruct (delete_name_children _ _ _ _ _ Hod Hk)
        as (nd & res' & _ & -> & [[[=] _]|(n' & [= <-] & Hnd)]).
      eexists. split; [done|]. rewrite update_sizes_dirs. simpl.
      split; [done|]. rewrite Hnd. by eauto.
    + rewrite delete_name_file in Hk by done. injection Hk as <-.
      exists o. rewrite Hod. split_and!; [done..|]. by intros [? [=]].
  - rewrite lookup_path_cons in Ho, Hn |- * by done.
    destruct (so !! k) as [o1|] eqn:Ho1; [|done]. simpl in Ho.
    destruct (dirs o1) as [od|] eqn:Hod; [|done]. simpl in Ho.
    destruct (sn !! k) as [n1|] eqn:Hn1; [|done]. simpl in Hn.
    destruct (dirs n1) as [nd|] eqn:Hnd; [|done]. simpl in Hn.
    destruct (delete_name_children _ _ _ _ _ Hod Hk)
      as (nd' & res' & Hres' & -> & [[[=] _]|(n' & [= <-] & Hnd')]).
    simpl. rewrite Hnd in Hnd'. injection Hnd' as <-.
    by eapply IH.
Qed.

(** X15.  When [merge_summaries] returns, every entry of the summary of
    the live directory has an entry at the same path in the merged
    summary, a file for a file and a directory for a directory, whatever
    the summary files hold. *)
Theorem merge_summaries_keeps_live
    fs fuel all_summaries path all_dirs total merged all_dirs'
    last_summary all_dirs'' :
  merge_summaries fs fuel all_summaries path all_dirs =
    Ok (total, merged, all_dirs') →
  get_dir_summary fs fuel (with_sep path) (with_sep path) all_dirs =
    Ok (last_summary, all_dirs'') →
  ∀ p n, lookup_path p last_summary = Some n →
    ∃ e, lookup_path p merged = Some e ∧ (dirs e = None ↔ dirs n = None).
Proof.
  unfold merge_summaries. intros Hrun Hwalk p n Hn.
  destruct (client_collected _) as [c| |]; [|done..]. simpl in Hrun.
  rewrite Hwalk in Hrun. simpl in Hrun.
  destruct (_delete_missing_entries _ _) as [res| |] eqn:Hdel; [|done..].
  injection Hrun as _ <- _.
  destruct (merge_new_paths p (merge_all all_summaries) last_summary true
              n Hn) as (e1 & He1 & Hdir1).
  destruct (delete_keeps_present p _ _ _ _ _ Hdel He1 Hn)
    as (e & He & Hkind & Hdir).
  exists e. split; [done|]. rewrite Hkind.
  destruct (dirs n) as [nd|], (dirs e1) as [d1|]; split; try done.
  - intros _. destruct Hdir1 as [? [=]]. by eauto.
  - intros _. destruct Hdir as [? [=]]. by eauto.
Qed.

(** The file [b] of the live directory [{a:10, b:25, c:5}] in the merged
    summary of the example. *)
Lemma merge_summaries_keeps_live_witness :
  ∃ e, lookup_path [ROOT_DIR; "b"] ex_merged = Some e
       ∧ (dirs e = None ↔ dirs (file 25) = None).
Proof.
  refine (merge_summaries_keeps_live
            (ex_fs 10 25 5) 2%nat [ex_summary_1; ex_summary_2] "/r" ∅
            30 ex_merged {[ "/r" ]} ex_last {[ "/r" ]} _ _
            [ROOT_DIR; "b"] (file 25) _).
  - vm_compute. reflexivity.
  - vm_compute. reflexivity.
  - reflexivity.
Defined.

(** * Summaries as the builder writes them *)

(** The walk gives one entry under the base name of the path, without a
    trimmed or a collected size; the entry is a directory unless the path
    is a regular file. *)
Lemma get_dir_summary_single fs fuel path top_dir all_dirs s all_dirs' :
  get_dir_summary fs fuel path top_dir all_dirs = Ok (s, all_dirs') →
  ∃ e, s = {[ os_path_basename path := e ]}
       ∧ trimmed_size_bytes e = None
       ∧ collected_size_bytes e = None
       ∧ (os_path_isfile fs path = false → is_Some (dirs e)).
Proof.
  destruct fuel as [|fuel]; [done|]. simpl.
  destruct (os_path_isfile fs path);
    [intros [= <- _]; eexists; by split_and!|].
  destruct (_ || _) eqn:Hskip;
    [intros [= <- _]; eexists; split_and!; [done..|by eauto]|].
  destruct (os_listdir_OSError fs path); [done|].
  destruct (foldl _ _ _) as [[info ad1]| |] eqn:Hloop; [|done..].
  intros [= <- _].
  eapply (scan_loop_ind _ path (λ _ info _,
    trimmed_size_bytes info = None
    ∧ collected_size_bytes info = None
    ∧ is_Some (dirs info))) in Hloop.
  - destruct Hloop as (? & ? & ?). by exists info.
  - intros f rest info0 ad0 s0 ad0' child (? & ? & ?) _ _.
    unfold add_child. simpl. by eauto.
  - simpl. by eauto.
Qed.

(** X16.  With exactly one summary file, written as the directory walk
    builds it, [merge_summaries] raises [KeyError]: no merge has run that
    would set the collected size of the root, which the function reads. *)
Theorem merge_summaries_one_summary_file
    fs fuel path all_dirs fs0 fuel0 path0 top_dir0 all_dirs0 s all_dirs1 :
  get_dir_summary fs0 fuel0 path0 top_dir0 all_dirs0 = Ok (s, all_dirs1) →
  merge_summaries fs fuel [s] path all_dirs = Raise KeyError.
Proof.
  intros (e & Hs & _ & HC & _)%get_dir_summary_single.
  unfold merge_summaries. change (merge_all [s]) with s. subst s.
  unfold client_collected.
  rewrite bool_decide_eq_false_2 by apply map_non_empty_singleton.
  destruct (decide (os_path_basename path0 = ROOT_DIR)) as [->|Hne].
  - by rewrite lookup_singleton_eq, HC.
  - by rewrite lookup_singleton_ne.
Qed.

(** The summary of the walk of [/r] as the one summary file. *)
Lemma merge_summaries_one_summary_file_witness :
  merge_summaries (ex_fs 10 25 5) 2 [ex_last] "/r" ∅ = Raise KeyError.
Proof.
  apply (merge_summaries_one_summary_file (ex_fs 10 25 5) 2%nat "/r" ∅
           (ex_fs 10 25 5) 2%nat "/r/" "/r/" ∅ ex_last {[ "/r" ]}).
  vm_compute. reflexivity.
Defined.

(** X17.  What [build_summary_json] returns has one entry, under
    [ROOT_DIR] whatever the name of the directory is, so that summaries of
    different directories merge root on root; the entry has no trimmed and
    no collected size. *)
Theorem build_summary_json_root fs fuel path all_dirs s all_dirs' :
  build_summary_json fs fuel path all_dirs = Ok (s, all_dirs') →
  ∃ root,
    s = tree root
    ∧ trimmed_size_bytes root = None
    ∧ collected_size_bytes root = None
    ∧ (os_path_isfile fs (with_sep path) = false → is_Some (dirs root)).
Proof.
  unfold build_summary_json.
  destruct (os_path_exists fs path); [|done].
  destruct (os_path_isdir fs path); [|done]. simpl.
  intros (e & -> & ? & ? & ?)%get_dir_summary_single.
  rewrite basename_with_sep. by exists e.
Qed.

(** The summary of the directory [/r]. *)
Lemma build_summary_json_root_witness :
  ∃ root,
    ex_last = tree root
    ∧ trimmed_size_bytes root = None
    ∧ collected_size_bytes root = None
    ∧ (os_path_isfile (ex_fs 10 25 5) (with_sep "/r") = false →
       is_Some (dirs root)).
Proof.
  apply (build_summary_json_root (ex_fs 10 25 5) 2 "/r" ∅
           ex_last {[ "/r" ]}).
  vm_compute. reflexivity.
Defined.

(** * The collected size under the merge *)

Lemma sum_sizes_mono f (m1 m2 : summary) :
  (∀ k e1, m1 !! k = Some e1 → ∃ e2, m2 !! k = Some e2 ∧ f e1 ≤ f e2) →
  (∀ k e2, m2 !! k = Some e2 → 0 ≤ f e2) →
  sum_sizes f m1 ≤ sum_sizes f m2.
Proof.
  revert m2.
  induction m1 as [|k e1 m1 Hk IH] using map_ind; intros m2 Hle Hpos.
  - rewrite sum_sizes_empty. by apply sum_sizes_nonneg.
  - rewrite sum_sizes_insert by done.
    destruct (Hle k e1 (lookup_insert_eq _ _ _)) as (e2 & He2 & ?).
    rewrite (sum_sizes_delete f k e2 m2) by done.
    assert (sum_sizes f m1 ≤ sum_sizes f (delete k m2)); [|lia].
    apply IH.
    + intros k' e' Hk'. assert (k' ≠ k) by (intros ->; congruence).
      destruct (Hle k' e') as (e2' & ? & ?); [by rewrite lookup_insert_ne|].
      exists e2'. by rewrite lookup_delete_ne.
    + intros k' e' [_ Hk']%lookup_delete_Some. by eapply Hpos.
Qed.

Lemma no_file_to_dir_children summary_old summary_new k o n od nd :
  no_file_to_dir summary_old summary_new →
  summary_old !! k = Some o →
  summary_new !! k = Some n →
  dirs o = Some od →
  dirs n = Some nd →
  no_file_to_dir od nd.
Proof.
  intros Hshape Ho Hn Hod Hnd p o' n' Ho' Hn'.
  destruct p as [|k' p]; [done|].
  apply (Hshape (k :: k' :: p)); rewrite lookup_path_cons by done.
  - rewrite Ho. simpl. by rewrite Hod.
  - rewrite Hn. simpl. by rewrite Hnd.
Qed.

(** The iteration of [_merge] for a name that both sides have, the old
    entry well-formed and not a file under a directory: the collected size
    does not go down. *)
Lemma merge_name_collected is_final n : ∀ o e,
  dir_sums o = true →
  all_nodes sizes_ordered o = true →
  all_nodes sizes_ordered n = true →
  (dirs o = None → dirs n = None) →
  (∀ od nd, dirs o = Some od → dirs n = Some nd → no_file_to_dir od nd) →
  merge_name is_final n (Some o) = Some e →
  get_collected o ≤ get_collected e.
Proof.
  induction n as [s t c|s t c d IH] using entry_ind';
    intros o e Hsums Ho Hn Hkind Hbelow.
  - rewrite merge_name_file by done.
    destruct (dirs o) as [od|] eqn:Hod; [done|].
    pose proof (all_nodes_head _ _ Hn) as Hn'.
    apply bool_decide_eq_true in Hn'.
    unfold merge_file, _update_sizes. rewrite Hod. cbn [dirs].
    repeat case_match; intros [= <-]; [|done].
    rewrite get_collected_Entry. simpl. lia.
  - destruct o as [so to co [od|]]; [|by specialize (Hkind eq_refl)].
    rewrite (merge_name_dir _ _ _ d) by done. intros [= <-].
    pose proof (dir_sums_children _ _ _ _ Hsums) as Hsums'.
    pose proof (all_nodes_children _ (Entry so to co (Some od)) od
                  eq_refl Ho) as Ho'.
    pose proof (all_nodes_children _ (Entry s t c (Some d)) d eq_refl Hn)
      as Hn'.
    destruct (dir_sums_sums (Entry so to co (Some od)) od eq_refl Hsums)
      as (_ & _ & ->).
    unfold force_dir, _update_sizes, set_dirs. cbn [dirs default].
    rewrite get_collected_Entry. cbn [default].
    apply sum_sizes_mono.
    + intros k o' Hk. rewrite lookup_merge, Hk.
      destruct (d !! k) as [n'|] eqn:Hnk; [|by exists o'].
      destruct (merge_name is_final n' (Some o')) as [e'|] eqn:He'; simpl;
        [|by exists o'].
      exists e'. split; [done|].
      eapply (IH k n' Hnk); [by eapply Hsums'|by eapply Ho'|by eapply Hn'
                            | | |done].
      * by apply (Hbelow od d eq_refl eq_refl [k] o' n').
      * intros od' nd' Hod' Hnd'.
        eapply (no_file_to_dir_children od d k o' n');
          [by apply Hbelow|done..].
    + intros k e2 Hk.
      assert (map_Forall (λ _ e, all_nodes sizes_ordered e = true)
                (_merge od d is_final)) as Hall.
      { apply merge_Forall; [done|].
        intros k' n' Hnk'. apply merge_name_sizes_ordered.
        by eapply Hn'. }
      apply Hall, all_nodes_head, bool_decide_eq_true in Hk. lia.
Qed.

(** X18.  [_merge] does not lower a collected size: when the old summary
    is well-formed, the sizes of both summaries are in order (0 ≤ trimmed ≤
    collected) and no file of the old summary is a directory in the new
    one, every entry of the old summary has an entry at its path in the
    merged summary whose collected size is at least the old one. *)
Theorem merge_collected_grows p :
  ∀ summary_old summary_new is_final o,
    well_formed summary_old = true →
    all_entries sizes_ordered summary_old = true →
    all_entries sizes_ordered summary_new = true →
    (∀ p o n,
       lookup_path p summary_old = Some o →
       lookup_path p summary_new = Some n →
       dirs o = None → dirs n = None) →
    lookup_path p summary_old = Some o →
    ∃ e, lookup_path p (_merge summary_old summary_new is_final) = Some e
         ∧ get_collected o ≤ get_collected e.
Proof.
  induction p as [|k p IH];
    intros so sn is_final o Hwf Hso Hsn Hshape Ho; [done|].
  pose proof (proj1 (well_formed_Forall _) Hwf) as Hwf'.
  pose proof (proj1 (all_entries_Forall _ _) Hso) as Hso'.
  pose proof (proj1 (all_entries_Forall _ _) Hsn) as Hsn'.
  destruct (decide (p = [])) as [->|Hp].
  - simpl in *. rewrite lookup_merge, Ho.
    destruct (sn !! k) as [n|] eqn:Hn; [|by exists o].
    destruct (merge_name is_final n (Some o)) as [e|] eqn:He; simpl;
      [|by exists o].
    exists e. split; [done|].
    eapply (merge_name_collected is_final n o e);
      [by eapply Hwf'|by eapply Hso'|by eapply Hsn'| | |done].
    + by apply (Hshape [k] o n).
    + intros od nd Hod Hnd.
      by eapply (no_file_to_dir_children so sn k o n).
  - rewrite lookup_path_cons in Ho |- * by done. rewrite lookup_merge.
    destruct (so !! k) as [[s1 t1 c1 [od|]]|] eqn:Ho1; simplify_eq/=.
    destruct (sn !! k) as [[s2 t2 c2 [nd|]]|] eqn:Hn1; simpl.
    + apply IH; [| | |by eapply (no_file_to_dir_children so sn k)|done].
      * apply well_formed_Forall. by eapply dir_sums_children, Hwf'.
      * apply all_entries_Forall.
        by eapply (all_nodes_children _ (Entry s1 t1 c1 (Some od))), Hso'.
      * apply all_entries_Forall.
        by eapply (all_nodes_children _ (Entry s2 t2 c2 (Some nd))), Hsn'.
    + by exists o.
    + by exists o.
Qed.

(** The file [f], collected with 100 bytes and then again with 50. *)
Lemma merge_collected_grows_witness :
  ∃ e, lookup_path [ROOT_DIR; "f"] (_merge ex_old_f ex_new_f false) = Some e
       ∧ get_collected (Entry 100 (Some 100) (Some 100) None)
         ≤ get_collected e.
Proof.
  apply (merge_collected_grows [ROOT_DIR; "f"] ex_old_f ex_new_f false).
  - reflexivity.
  - reflexivity.
  - reflexivity.
  - intros p o n. unfold ex_old_f, ex_new_f, tree.
    destruct p as [|k [|k' [|k'' p]]]; [done|..].
    + simpl. by intros [<- <-]%lookup_singleton_Some.
    + rewrite !(lookup_path_cons k) by done.
      destruct (decide (k = ROOT_DIR)) as [->|Hk];
        [|by rewrite lookup_singleton_ne].
      rewrite !lookup_singleton_eq. simpl. intros _ Hn _.
      apply lookup_insert_Some in Hn as [[_ <-]|[_ Hn]]; done.
    + rewrite !(lookup_path_cons k) by done.
      destruct (decide (k = ROOT_DIR)) as [->|Hk];
        [|by rewrite lookup_singleton_ne].
      rewrite !lookup_singleton_eq. cbn [mbind option_bind dirs dir].
      rewrite !(lookup_path_cons k') by done.
      destruct (decide (k' = "f")) as [->|Hk']; [done|].
      simpl. by rewrite lookup_insert_ne.
  - reflexivity.
Defined.

(** * The collected bytes of two or more summary files *)

(** A directory with its sizes recomputed stays one, with its sizes
    recomputed, under [ROOT_DIR] through further merges. *)
Lemma merge_root_updated summary_old summary_new is_final root d :
  summary_old !! ROOT_DIR = Some root →
  dirs root = Some d →
  collected_size_bytes root = Some (sum_sizes get_collected d) →
  ∃ root' d',
    _merge summary_old summary_new is_final !! ROOT_DIR = Some root'
    ∧ dirs root' = Some d'
    ∧ collected_size_bytes root' = Some (sum_sizes get_collected d').
Proof.
  intros Hroot Hd HC. rewrite lookup_merge, Hroot.
  destruct (summary_new !! ROOT_DIR) as [n|]; [|by exists root, d].
  destruct (dirs n) as [nd|] eqn:Hnd.
  - rewrite (merge_name_dir _ _ _ nd) by done. simpl.
    by eexists _, _.
  - rewrite merge_name_file, Hd by done. simpl. by exists root, d.
Qed.

(** X19.  With two or more summary files, the second of which has a
    directory under [ROOT_DIR], the root of the merged summary files is a
    directory with its sizes recomputed, and the collected bytes that
    [merge_summaries] reads exist: they are the sum of the collected sizes
    of the children of that root. *)
Theorem client_collected_two_summaries s1 s2 rest n nd :
  s2 !! ROOT_DIR = Some n →
  dirs n = Some nd →
  ∃ root d,
    merge_all (s1 :: s2 :: rest) !! ROOT_DIR = Some root
    ∧ dirs root = Some d
    ∧ client_collected (merge_all (s1 :: s2 :: rest)) =
        Ok (sum_sizes get_collected d).
Proof.
  intros Hn Hnd.
  assert (∃ root d,
    merge_all (s1 :: s2 :: rest) !! ROOT_DIR = Some root
    ∧ dirs root = Some d
    ∧ collected_size_bytes root = Some (sum_sizes get_collected d))
    as (root & d & Hroot & Hd & HC).
  { change (merge_all (s1 :: s2 :: rest))
      with (foldl (λ merged_summary summary,
                     _merge merged_summary summary false)
                  (_merge s1 s2 false) rest).
    assert (∃ root d,
      _merge s1 s2 false !! ROOT_DIR = Some root
      ∧ dirs root = Some d
      ∧ collected_size_bytes root = Some (sum_sizes get_collected d))
      as Hfirst.
    { rewrite lookup_merge, Hn. destruct (s1 !! ROOT_DIR) as [o|].
      - rewrite (merge_name_dir _ _ _ nd) by done. simpl. by eexists _, _.
      - rewrite merge_name_new. simpl. exists (_update_sizes n), nd.
        unfold _update_sizes. by rewrite Hnd. }
    revert Hfirst. generalize (_merge s1 s2 false).
    induction rest as [|s rest IH]; intros m Hm; [done|].
    simpl. apply IH.
    destruct Hm as (root & d & Hroot & Hd & HC).
    by eapply merge_root_updated. }
  exists root, d. split_and!; [done..|].
  unfold client_collected. rewrite Hroot, HC.
  rewrite bool_decide_eq_false_2; [done|].
  intros Hempty. by rewrite Hempty, lookup_empty in Hroot.
Qed.

(** The summary files [{a:10}] and [{a:10, b:20}]: 30 collected bytes. *)
Lemma client_collected_two_summaries_witness :
  ∃ root d,
    merge_all [ex_summary_1; ex_summary_2] !! ROOT_DIR = Some root
    ∧ dirs root = Some d
    ∧ client_collected (merge_all [ex_summary_1; ex_summary_2]) =
        Ok (sum_sizes get_collected d).
Proof.
  apply (client_collected_two_summaries ex_summary_1 ex_summary_2 []
           (dir 30 [("a", file 10); ("b", file 20)])
           (list_to_map [("a", file 10); ("b", file 20)])).
  - reflexivity.
  - reflexivity.
Defined.
